(** * Dynamic Form Builder: element tree manager and schema converter

    A shallow embedding of the tree-mutation logic of
    [src/components/FormBuilder.tsx], the option controls of
    [FormElement.tsx], the forward converter of [src/utils/schemaConverter.ts]
    and the reverse converter of [src/components/FormPreview.tsx], followed by
    the properties established about them. *)

From Stdlib Require Import List String Ascii ZArith NArith Lia Bool Arith.
From Stdlib Require Import DecimalString Permutation.
Import ListNotations.
Local Open Scope string_scope.
Local Open Scope list_scope.

Set Implicit Arguments.

(** ** Loops with an index and an early exit

    The source walks arrays with [for ... of] loops that return from the first
    hit, and with [map] callbacks.  The combinators below take the loop body as
    a parameter, so that a function recursive on an element may run them over
    that element's children. *)

Section Loops.
Variables A B : Type.

(** [for (x of l) { r = body i x; if (r) return r }; return null], where [i]
    counts the position of [x] from [i0]. *)
Variable body : nat -> A -> option B.

Fixpoint scan_from (i0 : nat) (l : list A) : option B :=
  match l with
  | [] => None
  | x :: rest =>
      match body i0 x with
      | Some r => Some r
      | None => scan_from (S i0) rest
      end
  end.

(** [l.map((x, i) => f i x)], positions counted from [i0]. *)
Variable f : nat -> A -> B.

Fixpoint mapi_from (i0 : nat) (l : list A) : list B :=
  match l with
  | [] => []
  | x :: rest => f i0 x :: mapi_from (S i0) rest
  end.
End Loops.

(** Decimal rendering of a number inside a template literal. *)
Definition decimal_of_nat (n : nat) : string :=
  NilEmpty.string_of_uint (Nat.to_uint n).

Definition decimal_of_N (n : N) : string :=
  NilEmpty.string_of_uint (N.to_uint n).

(** [arrayMove] of [@dnd-kit/sortable]: a copy of the array in which the item
    at [from] has been spliced out and spliced back in at [to].  The builder
    only calls it with two positions of the array. *)
Definition arrayMove (A : Type) (l : list A) (from to : nat) : list A :=
  match nth_error l from with
  | Some x =>
      let without := firstn from l ++ skipn (S from) l in
      firstn to without ++ x :: skipn to without
  | None => l
  end.

(** ** The element tree ([FormBuilder.tsx]) *)

Module FormBuilder.

Unset Elimination Schemes.

(** [ElementType].  A field marked [?] in the source is an [option]; [None]
    stands for a missing key and for [undefined] alike. *)
Inductive ElementType : Type := mkElement {
  id : string;
  type : string;
  label : string;
  description : option string;
  placeholder : option string;
  required : option bool;
  options : option (list string);
  isMultipleChoice : option bool;
  maxOptions : option Z;
  children : option (list ElementType)
}.

Set Elimination Schemes.

(** [{ ...element, children: c }] *)
Definition with_children (e : ElementType) (c : list ElementType) : ElementType :=
  mkElement (id e) (type e) (label e) (description e) (placeholder e)
    (required e) (options e) (isMultipleChoice e) (maxOptions e) (Some c).

(** [Partial<ElementType>]: [Some v] is a key that is present with value [v]. *)
Record Updates : Type := mkUpdates {
  u_id : option string;
  u_type : option string;
  u_label : option string;
  u_description : option (option string);
  u_placeholder : option (option string);
  u_required : option (option bool);
  u_options : option (option (list string));
  u_isMultipleChoice : option (option bool);
  u_maxOptions : option (option Z);
  u_children : option (option (list ElementType))
}.

Definition no_updates : Updates :=
  mkUpdates None None None None None None None None None None.

Definition pick (A : Type) (old : A) (new : option A) : A :=
  match new with Some v => v | None => old end.

(** [{ ...element, ...updates }] *)
Definition spread (e : ElementType) (u : Updates) : ElementType :=
  mkElement (pick (id e) (u_id u)) (pick (type e) (u_type u))
    (pick (label e) (u_label u)) (pick (description e) (u_description u))
    (pick (placeholder e) (u_placeholder u)) (pick (required e) (u_required u))
    (pick (options e) (u_options u))
    (pick (isMultipleChoice e) (u_isMultipleChoice u))
    (pick (maxOptions e) (u_maxOptions u)) (pick (children e) (u_children u)).

(** *** Lookup

    An array of the tree is identified by where it sits: [[]] is the root
    array, and [p ++ [i]] is the [children] array of the element at position
    [i] of the array at [p].  In a tree value every array sits at one place
    only, so comparing two arrays with [===] is comparing their places. *)
Definition Place := list nat.

Definition place_eqb (p q : Place) : bool :=
  if list_eq_dec Nat.eq_dec p q then true else false.

(** The non-null result of [findElementAndParent]: the element, its parent
    array (place and items), and the position at which the loop met the
    element.  No earlier item of the parent carries the wanted id, so this is
    also what [parent.indexOf(element)] returns. *)
Record Found : Type := mkFound {
  element : ElementType;
  parentPlace : Place;
  parent : list ElementType;
  index : nat
}.

(** Body of the [for] loop of [findElementAndParent(elements, id)] at the
    element [e], which is item [i] of the array [elements] sitting at [p]. *)
Fixpoint findAt (wanted : string) (elements : list ElementType) (p : Place)
    (i : nat) (e : ElementType) {struct e} : option Found :=
  if id e =? wanted then Some (mkFound e p elements i)
  else
    match children e with
    | Some c => scan_from (findAt wanted c (p ++ [i])) 0 c
    | None => None
    end.

(** [findElementAndParent(elements, id)]; [None] is
    [{ element: null, parent: null }]. *)
Definition findElementAndParent (elements : list ElementType) (wanted : string)
    : option Found :=
  scan_from (findAt wanted elements []) 0 elements.

(** Body of the loop of [findSection]. *)
Fixpoint findSectionAt (overId : string) (e : ElementType) : option ElementType :=
  if (id e =? overId) && (type e =? "section") then Some e
  else
    match children e with
    | Some c => scan_from (fun _ => findSectionAt overId) 0 c
    | None => None
    end.

Definition findSection (elements : list ElementType) (overId : string)
    : option ElementType :=
  scan_from (fun _ => findSectionAt overId) 0 elements.

(** *** Dropping a tool card *)

Definition newElement (active : string) (now : N) : ElementType :=
  mkElement (active ++ "-" ++ decimal_of_N now) active ("New " ++ active)
    (if (active =? "title") || (active =? "section") then Some "" else None)
    (Some "")
    (Some false)
    (if active =? "select" then Some ["Option 1"; "Option 2"] else None)
    (if active =? "select" then Some false else None)
    (if active =? "select" then Some 4%Z else None)
    (if active =? "section" then Some [] else None).

(** [[...(element.children || []), x]] *)
Definition push_child (e : ElementType) (x : ElementType) : ElementType :=
  with_children e (match children e with Some c => c | None => [] end ++ [x]).

(** *** Re-parenting into a section: the first [updateElements] *)
Fixpoint appendInto (targetId : string) (moved : ElementType) (e : ElementType)
    : ElementType :=
  if id e =? targetId then push_child e moved
  else
    match children e with
    | Some c => with_children e (map (appendInto targetId moved) c)
    | None => e
    end.

Definition updateElements_append (targetId : string) (moved : ElementType)
    (elements : list ElementType) : list ElementType :=
  map (appendInto targetId moved) elements.

(** *** Reordering inside a nested array: the second [updateElements].
    [e] is item [i] of the array at [p]; [element.children === activeParent]
    compares places. *)
Fixpoint reorderAt (activeParent : Place) (activeIndex overIndex : nat)
    (p : Place) (i : nat) (e : ElementType) {struct e} : ElementType :=
  match children e with
  | Some c =>
      if place_eqb (p ++ [i]) activeParent
      then with_children e (arrayMove c activeIndex overIndex)
      else with_children e
             (mapi_from (reorderAt activeParent activeIndex overIndex (p ++ [i])) 0 c)
  | None => e
  end.

Definition updateElements_reorder (activeParent : Place)
    (activeIndex overIndex : nat) (elements : list ElementType)
    : list ElementType :=
  mapi_from (reorderAt activeParent activeIndex overIndex []) 0 elements.

(** *** [handleDragEnd]

    The value is the [elements] state after the handler: where the source
    does not call [setElements] the state is the one it was.  [now] is the
    reading of [Date.now()]. *)
Definition handleDragEnd (elements : list ElementType) (active : string)
    (over : option string) (now : N) : list ElementType :=
  match over with
  | None => elements
  | Some overId =>
      let targetSection := findSection elements overId in
      let activeFound := findElementAndParent elements active in
      let overFound := findElementAndParent elements overId in
      match activeFound, targetSection with
      | None, None =>
          let fresh := newElement active now in
          match overFound with
          | Some o =>
              if type (element o) =? "section"
              then map (fun e => if id e =? id (element o)
                                 then push_child e fresh else e) elements
              else elements ++ [fresh]
          | None => elements ++ [fresh]
          end
      | _, _ =>
          match activeFound, overFound with
          | Some a, Some o =>
              let reordered :=
                if place_eqb (parentPlace a) (parentPlace o)
                then
                  if place_eqb (parentPlace a) []
                  then arrayMove elements (index a) (index o)
                  else updateElements_reorder (parentPlace a) (index a)
                         (index o) elements
                else elements in
              match targetSection with
              | Some s =>
                  if id s =? overId
                  then
                    let newActiveParent :=
                      filter (fun e => negb (id e =? active)) (parent a) in
                    if place_eqb (parentPlace a) []
                    then updateElements_append (id s) (element a) newActiveParent
                    else updateElements_append (id s) (element a) elements
                  else reordered
              | None => reordered
              end
          | _, _ => elements
          end
      end
  end.

(** *** [handleElementUpdate] *)
Fixpoint updateAt (wanted : string) (updates : Updates) (e : ElementType)
    : ElementType :=
  if id e =? wanted then spread e updates
  else
    match children e with
    | Some c => with_children e (map (updateAt wanted updates) c)
    | None => e
    end.

Definition handleElementUpdate (elements : list ElementType) (wanted : string)
    (updates : Updates) : list ElementType :=
  map (updateAt wanted updates) elements.

(** *** [handleElementRemove]

    The [filter] callback drops a matching element without looking inside
    it, and otherwise stores the filtered children back into the element it
    keeps ([element.children = removeElement(element.children)]).  [removeAt]
    is the callback: [None] for a dropped element, [Some] of the kept element
    with its new children. *)
Fixpoint removeAt (wanted : string) (e : ElementType) : option ElementType :=
  if id e =? wanted then None
  else
    match children e with
    | Some c =>
        Some (with_children e
                (flat_map (fun x => match removeAt wanted x with
                                    | Some y => [y]
                                    | None => []
                                    end) c))
    | None => Some e
    end.

Definition removeElement (wanted : string) (elements : list ElementType)
    : list ElementType :=
  flat_map (fun x => match removeAt wanted x with
                     | Some y => [y]
                     | None => []
                     end) elements.

Definition handleElementRemove (elements : list ElementType) (wanted : string)
    : list ElementType :=
  removeElement wanted elements.

(** *** Positions and ids of a tree *)

(** Every element of the subtree of [e], [e] first, in the order the lookups
    visit them. *)
Fixpoint flatten (e : ElementType) : list ElementType :=
  e :: match children e with
       | Some c => flat_map flatten c
       | None => []
       end.

Definition all_elements (elements : list ElementType) : list ElementType :=
  flat_map flatten elements.

Definition all_ids (elements : list ElementType) : list string :=
  map id (all_elements elements).

(** No element of the subtree of [e] carries the id [wanted]. *)
Definition absent (wanted : string) (e : ElementType) : Prop :=
  Forall (fun x => id x <> wanted) (flatten e).

(** The array sitting at a place of the tree. *)
Fixpoint arrayAt (elements : list ElementType) (p : Place)
    : option (list ElementType) :=
  match p with
  | [] => Some elements
  | i :: p' =>
      match nth_error elements i with
      | Some e =>
          match children e with
          | Some c => arrayAt c p'
          | None => None
          end
      | None => None
      end
  end.

(** [e] is item [i] of the array at place [p]. *)
Definition placed (elements : list ElementType) (p : Place) (i : nat)
    (e : ElementType) : Prop :=
  exists arr, arrayAt elements p = Some arr /\ nth_error arr i = Some e.

(** Induction on an element with the hypothesis on all of its children. *)
Section Induction.
Variable P : ElementType -> Prop.
Hypothesis leaf : forall i t l d p r o m x,
  P (mkElement i t l d p r o m x None).
Hypothesis node : forall i t l d p r o m x c,
  Forall P c -> P (mkElement i t l d p r o m x (Some c)).

Fixpoint element_ind (e : ElementType) : P e :=
  match e with
  | mkElement i t l d p r o m x None => leaf i t l d p r o m x
  | mkElement i t l d p r o m x (Some c) =>
      node i t l d p r o m x
        ((fix each (l : list ElementType) : Forall P l :=
            match l with
            | [] => Forall_nil P
            | y :: ys => Forall_cons y (element_ind y) (each ys)
            end) c)
  end.
End Induction.

End FormBuilder.

(** ** The property controls of a select element ([FormElement.tsx]) *)

Module FormElement.
Import FormBuilder.

(** [l.filter((x, i) => keep i x)], positions counted from [i0]. *)
Fixpoint filteri_from (A : Type) (keep : nat -> A -> bool) (i0 : nat)
    (l : list A) : list A :=
  match l with
  | [] => []
  | x :: rest =>
      if keep i0 x then x :: filteri_from keep (S i0) rest
      else filteri_from keep (S i0) rest
  end.

Definition options_update (newOptions : list string) : Updates :=
  mkUpdates None None None None None None (Some (Some newOptions)) None None None.

(** A handler either returns early ([None]) or calls
    [onUpdate(element.id, updates)] once ([Some (id, updates)]). *)
Definition Call := option (string * Updates).

(** [addOption] *)
Definition addOption (element : ElementType) : Call :=
  match options element with
  | None => None
  | Some opts =>
      if match maxOptions element with
         | Some m => negb (m =? 0)%Z && (m <=? Z.of_nat (List.length opts))%Z
         | None => false
         end
      then None
      else Some (id element,
                 options_update
                   (opts ++ [("Option " ++ decimal_of_nat (List.length opts + 1))%string]))
  end.

(** [removeOption(index)] *)
Definition removeOption (element : ElementType) (index : nat) : Call :=
  match options element with
  | None => None
  | Some opts =>
      if (List.length opts <=? 2)%nat then None
      else Some (id element,
                 options_update
                   (filteri_from (fun i _ => negb (i =? index)%nat) 0 opts))
  end.

(** The element as the tree holds it once the handler has run: the update, if
    one was issued, is merged into the element carrying that id. *)
Definition after (element : ElementType) (c : Call) : ElementType :=
  match c with
  | Some (_, updates) => spread element updates
  | None => element
  end.

End FormElement.

(** ** JavaScript values

    The converters build and read untyped objects ([any]).  An object is the
    list of its members in the order [Object.entries] enumerates them; its keys
    are pairwise distinct. *)

Module Js.

Unset Elimination Schemes.
Inductive value : Type :=
| Undefined
| Null
| Bool (b : bool)
| Num (z : Z)
| Str (s : string)
| Arr (items : list value)
| Obj (members : list (string * value)).
Set Elimination Schemes.

(** Conversion to boolean in [if], [&&], [||] and [?:]. *)
Definition truthy (v : value) : bool :=
  match v with
  | Undefined | Null => false
  | Bool b => b
  | Num z => negb (z =? 0)%Z
  | Str s => negb (s =? "")
  | Arr _ | Obj _ => true
  end.

(** [a || b] *)
Definition or_else (a b : value) : value := if truthy a then a else b.

Fixpoint lookup (k : string) (members : list (string * value)) : option value :=
  match members with
  | [] => None
  | (k', v) :: rest => if k' =? k then Some v else lookup k rest
  end.

(** [o[k] = v] on the member list: an existing key keeps its position. *)
Fixpoint set (k : string) (v : value) (members : list (string * value))
    : list (string * value) :=
  match members with
  | [] => [(k, v)]
  | (k', v') :: rest =>
      if k' =? k then (k, v) :: rest else (k', v') :: set k v rest
  end.

(** [v.k] for the keys the converters read, none of which is a property of a
    string, number, boolean or array.  [None] is the [TypeError] of reading a
    property of [null] or [undefined]. *)
Definition get (v : value) (k : string) : option value :=
  match v with
  | Undefined | Null => None
  | Obj members =>
      Some (match lookup k members with Some x => x | None => Undefined end)
  | _ => Some Undefined
  end.

(** [v === "s"] *)
Definition is_str (v : value) (s : string) : bool :=
  match v with Str s' => s' =? s | _ => false end.

Fixpoint is_prefix (p s : string) : bool :=
  match p, s with
  | EmptyString, _ => true
  | String a p', String b s' => Ascii.eqb a b && is_prefix p' s'
  | String _ _, EmptyString => false
  end.

Fixpoint is_substring (p s : string) : bool :=
  is_prefix p s ||
  match s with
  | EmptyString => false
  | String _ s' => is_substring p s'
  end.

(** [v.includes(key)] for a truthy [v]: membership in an array, containment
    in a string, and a [TypeError] on anything else. *)
Definition includes (v : value) (key : string) : option value :=
  match v with
  | Arr items => Some (Bool (existsb (fun x => is_str x key) items))
  | Str s => Some (Bool (is_substring key s))
  | _ => None
  end.

Fixpoint chars_of (s : string) : list value :=
  match s with
  | EmptyString => []
  | String a s' => Str (String a EmptyString) :: chars_of s'
  end.

(** [Object.entries(v)] for a truthy [v]. *)
Definition entries (v : value) : list (string * value) :=
  match v with
  | Obj members => members
  | Arr items => mapi_from (fun i x => (decimal_of_nat i, x)) 0 items
  | Str s => mapi_from (fun i x => (decimal_of_nat i, x)) 0 (chars_of s)
  | _ => []
  end.

Definition of_string (o : option string) : value :=
  match o with Some s => Str s | None => Undefined end.

Definition is_undefined (v : value) : bool :=
  match v with Undefined => true | _ => false end.

(** What [JSON.stringify] writes: a member whose value is [undefined] is left
    out, and [undefined] inside an array is written as [null]. *)
Fixpoint json_of (v : value) : value :=
  match v with
  | Arr items =>
      Arr (map (fun x => if is_undefined x then Null else json_of x) items)
  | Obj members =>
      Obj (flat_map (fun kv : string * value =>
                       let (k, x) := kv in
                       if is_undefined x then [] else [(k, json_of x)])
             members)
  | _ => v
  end.

(** Equality of two JSON values up to the order of object members. *)
Fixpoint same_json (v w : value) : bool :=
  match v, w with
  | Undefined, Undefined => true
  | Null, Null => true
  | Bool a, Bool b => Bool.eqb a b
  | Num a, Num b => (a =? b)%Z
  | Str a, Str b => a =? b
  | Arr xs, Arr ys =>
      (fix each (xs : list value) (ys : list value) : bool :=
         match xs, ys with
         | [], [] => true
         | x :: xs', y :: ys' => same_json x y && each xs' ys'
         | _, _ => false
         end) xs ys
  | Obj ms, Obj ns =>
      (List.length ms =? List.length ns)%nat &&
      forallb (fun kv : string * value =>
                         let (k, x) := kv in
                         match lookup k ns with
                         | Some y => same_json x y
                         | None => false
                         end) ms
  | _, _ => false
  end.

End Js.

(** ** Tree to schema ([schemaConverter.ts]) *)

Module SchemaConverter.
Import FormBuilder.
Import Js.

(** The object [elementsToJsonSchema] returns: [type], [properties] and
    [required], the last one [undefined] when no id was pushed. *)
Record JsonSchema : Type := mkJsonSchema {
  schema_type : string;
  properties : list (string * value);
  required_ids : option (list string)
}.

Definition flagged (o : option bool) : bool :=
  match o with Some b => b | None => false end.

Definition nonempty (o : option string) : bool :=
  match o with Some s => negb (s =? "") | None => false end.

(** [if (element.placeholder) schema.examples = [element.placeholder]] *)
Definition with_examples (e : ElementType) (schema : list (string * value))
    : list (string * value) :=
  if nonempty (placeholder e)
  then set "examples" (Arr [of_string (placeholder e)]) schema
  else schema.

Definition options_or_empty (e : ElementType) : value :=
  Arr (map Str (match options e with Some o => o | None => [] end)).

(** The [else] branch of the callback: the schema of an element that is not
    a section with children. *)
Definition fieldSchema (e : ElementType) : value :=
  let schema :=
    [("title", Str (label e)); ("description", of_string (description e))] in
  Obj
    (if type e =? "text" then
       with_examples e (set "type" (Str "string") schema)
     else if type e =? "email" then
       with_examples e
         (set "format" (Str "email") (set "type" (Str "string") schema))
     else if type e =? "number" then
       with_examples e (set "type" (Str "number") schema)
     else if type e =? "checkbox" then
       set "type" (Str "boolean") schema
     else if type e =? "select" then
       if flagged (isMultipleChoice e) then
         let withItems :=
           set "items" (Obj [("type", Str "string"); ("enum", options_or_empty e)])
             (set "type" (Str "array") schema) in
         match maxOptions e with
         | Some m =>
             if (m =? 0)%Z then withItems else set "maxItems" (Num m) withItems
         | None => withItems
         end
       else
         set "enum" (options_or_empty e) (set "type" (Str "string") schema)
     else if type e =? "title" then
       set "description" (of_string (description e))
         (set "readOnly" (Bool true) (set "type" (Str "string") schema))
     else
       set "type" (Str "string") schema).

Section Walk.
(** The value stored under [properties[element.id]]. *)
Variable entry : ElementType -> value.

(** One turn of [elements.forEach] on the pair ([properties], [required]). *)
Definition visit (acc : list (string * value) * list string) (e : ElementType)
    : list (string * value) * list string :=
  (set (id e) (entry e) (fst acc),
   if flagged (required e) then snd acc ++ [id e] else snd acc).

Definition walk (elements : list ElementType) : JsonSchema :=
  match elements with
  | [] => mkJsonSchema "object" [] None
  | _ =>
      let acc := fold_left visit elements ([], []) in
      mkJsonSchema "object" (fst acc)
        (match snd acc with [] => None | _ => Some (snd acc) end)
  end.
End Walk.

(** The entry of one element; a section with children recurses through
    [elementsToJsonSchema(element.children)]. *)
Fixpoint entryOf (e : ElementType) : value :=
  match (type e =? "section"), children e with
  | true, Some c =>
      let sub := walk entryOf c in
      Obj ([("type", Str "object");
            ("title", Str (label e));
            ("description", of_string (description e));
            ("properties", Obj (properties sub))]
           ++ match required_ids sub with
              | Some (x :: r) => [("required", Arr (map Str (x :: r)))]
              | _ => []
              end)
  | _, _ => fieldSchema e
  end.

Definition elementsToJsonSchema (elements : list ElementType) : JsonSchema :=
  walk entryOf elements.

(** The returned object as a value. *)
Definition to_value (s : JsonSchema) : value :=
  Obj [("type", Str (schema_type s));
       ("properties", Obj (properties s));
       ("required", match required_ids s with
                    | Some r => Arr (map Str r)
                    | None => Undefined
                    end)].

(** The object [FormBuilder] shows under "Show Schema" ([jsonSchema]) and
    compiles for validation in [handleSubmit] ([schema]): both are
    [{ type: 'object', properties: elementsToJsonSchema(elements) }]. *)
Definition builderSchema (elements : list ElementType) : value :=
  Obj [("type", Str "object");
       ("properties", to_value (elementsToJsonSchema elements))].

End SchemaConverter.

(** ** Schema to tree ([FormPreview.tsx]) *)

Module FormPreview.
Import Js.

Unset Elimination Schemes.

(** The preview's own [ElementType].  The converter fills most fields from
    untyped schema members, so they hold whatever value the schema held;
    [Undefined] also stands for a key the object literal does not have. *)
Inductive ElementType : Type := mkElement {
  id : string;
  type : string;
  label : value;
  description : value;
  placeholder : value;
  required : value;
  options : value;
  isMultipleChoice : option bool;
  children : option (list ElementType)
}.

Set Elimination Schemes.

(** The three results of the conversion, as they stand while it runs. *)
Record Conversion : Type := mkConversion {
  convertedElements : list ElementType;
  labels : list (string * value);
  descriptions : list (string * value)
}.

(** A computation that may stop on a [TypeError] ([None]). *)
Definition bind (A B : Type) (m : option A) (k : A -> option B) : option B :=
  match m with Some x => k x | None => None end.

Notation "x <- m ;; k" := (bind m (fun x => k))
  (at level 61, m at next level, right associativity).

(** [forEach] with a callback that may throw. *)
Fixpoint forEach (A S : Type) (callback : S -> A -> option S) (l : list A)
    (s : S) : option S :=
  match l with
  | [] => Some s
  | x :: rest => s' <- callback s x ;; forEach callback rest s'
  end.

(** [owner.required && owner.required.includes(key)] *)
Definition requiredFlag (owner : value) (key : string) : option value :=
  r <- get owner "required" ;;
  if truthy r then includes r key else Some r.

Definition push (e : ElementType) (c : Conversion) : Conversion :=
  mkConversion (convertedElements c ++ [e]) (labels c) (descriptions c).

Definition set_label (k : string) (v : value) (c : Conversion) : Conversion :=
  mkConversion (convertedElements c) (set k v (labels c)) (descriptions c).

Definition set_description (k : string) (v : value) (c : Conversion) : Conversion :=
  mkConversion (convertedElements c) (labels c) (set k v (descriptions c)).

(** [if (d) descriptions[k] = d] *)
Definition note_description (k : string) (d : value) (c : Conversion) : Conversion :=
  if truthy d then set_description k d c else c.

(** The callback over the nested [properties] of an object-typed property
    [key]: the state is the list [childElements] next to the two side maps. *)
Definition convertChild (key : string) (prop : value)
    (st : list ElementType * Conversion) (entry : string * value)
    : option (list ElementType * Conversion) :=
  let (childKey, childProp) := entry in
  let (childElements, c) := st in
  childRequired <- requiredFlag prop childKey ;;
  childType <- get childProp "type" ;;
  childTitle <- get childProp "title" ;;
  childDescription <- get childProp "description" ;;
  childExample <- get childProp "example" ;;
  let childId := (key ++ "_" ++ childKey)%string in
  let child :=
    mkElement childId
      (if is_str childType "boolean" then "checkbox" else "text")
      (or_else childTitle (Str childKey))
      childDescription
      (or_else childExample (Str ""))
      childRequired
      Undefined None None in
  Some (childElements ++ [child],
        note_description childId childDescription
          (set_label childId (or_else childTitle (Str childKey)) c)).

(** The callback over the top-level [properties] of [schema]. *)
Definition convertProperty (schema : value) (c : Conversion)
    (entry : string * value) : option Conversion :=
  let (key, prop) := entry in
  required <- requiredFlag schema key ;;
  propDescription <- get prop "description" ;;
  let c := note_description key propDescription c in
  propType <- get prop "type" ;;
  propTitle <- get prop "title" ;;
  let shown := or_else propTitle (Str key) in
  if is_str propType "string" then
    propEnum <- get prop "enum" ;;
    propFormat <- get prop "format" ;;
    propExample <- get prop "example" ;;
    Some (set_label key shown
            (push
               (if truthy propEnum then
                  mkElement key "select" shown propDescription Undefined
                    required propEnum (Some false) None
                else if is_str propFormat "email" then
                  mkElement key "email" shown propDescription
                    (or_else propExample (Str "")) required Undefined None None
                else
                  mkElement key "text" shown propDescription
                    (or_else propExample (Str "")) required Undefined None None)
               c))
  else if is_str propType "number" || is_str propType "integer" then
    propExample <- get prop "example" ;;
    Some (set_label key shown
            (push (mkElement key "number" shown propDescription
                     (or_else propExample (Str "")) required Undefined None None)
               c))
  else if is_str propType "boolean" then
    Some (set_label key shown
            (push (mkElement key "checkbox" shown propDescription Undefined
                     required Undefined None None)
               c))
  else if is_str propType "array" then
    propItems <- get prop "items" ;;
    if truthy propItems then
      itemsEnum <- get propItems "enum" ;;
      if truthy itemsEnum then
        Some (set_label key shown
                (push (mkElement key "select" shown propDescription Undefined
                         required itemsEnum (Some true) None)
                   c))
      else Some c
    else Some c
  else if is_str propType "object" then
    nested <- get prop "properties" ;;
    st <- (if truthy nested
           then forEach (convertChild key prop) (entries nested) ([], c)
           else Some ([], c)) ;;
    Some (push (mkElement key "section" shown propDescription Undefined
                  Undefined Undefined None (Some (fst st)))
            (snd st))
  else Some c.

Definition titleElement (title description : value) : ElementType :=
  mkElement "title" "title" title (or_else description (Str "")) Undefined
    Undefined Undefined None None.

(** [convertJsonSchemaToElements(schema)] *)
Definition convertJsonSchemaToElements (schema : value) : option Conversion :=
  title <- get schema "title" ;;
  schemaDescription <- get schema "description" ;;
  let c0 := mkConversion [] [] [] in
  let c1 :=
    if truthy title
    then note_description "title" schemaDescription
           (push (titleElement title schemaDescription) c0)
    else c0 in
  props <- get schema "properties" ;;
  if truthy props
  then forEach (convertProperty schema) (entries props) c1
  else Some c1.

(** *** Schemas the conversion runs through

    A JSON Schema has objects for its property schemas and an array, when it
    has one, for [required]. *)
Definition schema_like (v : value) : bool :=
  match v with
  | Obj members =>
      match lookup "required" members with
      | None | Some Undefined | Some (Arr _) => true
      | Some _ => false
      end
  | _ => false
  end.

(** The entries the converter walks under [owner.properties]. *)
Definition propertiesOf (owner : value) : list (string * value) :=
  match get owner "properties" with
  | Some props => if truthy props then entries props else []
  | None => []
  end.

Definition well_formed (schema : value) : bool :=
  schema_like schema &&
  forallb (fun kv : string * value =>
             schema_like (snd kv) &&
             forallb (fun kv' : string * value => schema_like (snd kv'))
               (propertiesOf (snd kv)))
    (propertiesOf schema).

End FormPreview.

(** ** The other property controls of an element ([FormElement.tsx]) *)

Module Controls.
Import FormBuilder.
Import FormElement.

Definition label_update (v : string) : Updates :=
  mkUpdates None None (Some v) None None None None None None None.

Definition description_update (v : string) : Updates :=
  mkUpdates None None None (Some (Some v)) None None None None None None.

Definition placeholder_update (v : string) : Updates :=
  mkUpdates None None None None (Some (Some v)) None None None None None.

Definition required_update (v : bool) : Updates :=
  mkUpdates None None None None None (Some (Some v)) None None None None.

Definition multiple_update (v : bool) : Updates :=
  mkUpdates None None None None None None None (Some (Some v)) None None.

Definition maxOptions_update (v : Z) : Updates :=
  mkUpdates None None None None None None None None (Some (Some v)) None.

Definition handleLabelChange (element : ElementType) (newLabel : string) : Call :=
  Some (id element, label_update newLabel).

Definition handleDescriptionChange (element : ElementType)
    (newDescription : string) : Call :=
  Some (id element, description_update newDescription).

Definition handlePlaceholderChange (element : ElementType)
    (newPlaceholder : string) : Call :=
  Some (id element, placeholder_update newPlaceholder).

Definition handleRequiredChange (element : ElementType) (required : bool) : Call :=
  Some (id element, required_update required).

(** [newOptions[index] = value] on a copy of the list, for a position of the
    list or the position just past its end.  Further out the source leaves
    holes, which a list of strings cannot hold; the option inputs are made by
    mapping over the list and never ask for that. *)
Definition assign (l : list string) (index : nat) (value : string) : list string :=
  firstn index l ++ value :: skipn (S index) l.

(** [handleOptionChange(index, value)] *)
Definition handleOptionChange (element : ElementType) (index : nat)
    (value : string) : Call :=
  match options element with
  | None => None
  | Some opts => Some (id element, options_update (assign opts index value))
  end.

(** [!element.isMultipleChoice] *)
Definition not_multiple (element : ElementType) : bool :=
  match isMultipleChoice element with
  | Some b => negb b
  | None => true
  end.

Definition toggleMultipleChoice (element : ElementType) : Call :=
  Some (id element, multiple_update (not_multiple element)).

(** [handleMaxOptionsChange(value)]; [parsed] is what [parseInt(value, 10)]
    gave, [None] for [NaN]. *)
Definition handleMaxOptionsChange (element : ElementType) (parsed : option Z)
    : Call :=
  match parsed with
  | None => None
  | Some maxOptions =>
      if (maxOptions <? 2)%Z then None
      else Some (id element, maxOptions_update maxOptions)
  end.

(** *** What the rendered element offers

    The guards of the JSX: the remove button of an option row is rendered
    under [element.options && element.options.length > 2], the add button
    under [!element.maxOptions || (element.options && element.options.length <
    element.maxOptions)]. *)
Definition showsRemove (element : ElementType) : bool :=
  match options element with
  | Some opts => (2 <? List.length opts)%nat
  | None => false
  end.

Definition showsAdd (element : ElementType) : bool :=
  match maxOptions element with
  | None => true
  | Some m =>
      (m =? 0)%Z ||
      match options element with
      | Some opts => (Z.of_nat (List.length opts) <? m)%Z
      | None => false
      end
  end.

Definition option_rows (element : ElementType) : nat :=
  match options element with
  | Some opts => List.length opts
  | None => 0
  end.

(** An edit the user makes on the rendered element. *)
Inductive Event : Type :=
| LabelChange (newLabel : string)
| DescriptionChange (newDescription : string)
| PlaceholderChange (newPlaceholder : string)
| RequiredChange (required : bool)
| OptionChange (index : nat) (value : string)
| AddOption
| RemoveOption (index : nat)
| ToggleMultipleChoice
| MaxOptionsChange (parsed : option Z).

(** Whether the markup of the element has the control that raises the event:
    the description box for titles and sections, the placeholder box for
    text, email and number fields, the option controls for select elements,
    one option row per entry of the options list. *)
Definition offered (element : ElementType) (ev : Event) : bool :=
  match ev with
  | LabelChange _ | RequiredChange _ => true
  | DescriptionChange _ =>
      (type element =? "title") || (type element =? "section")
  | PlaceholderChange _ =>
      (type element =? "text") || (type element =? "email")
      || (type element =? "number")
  | OptionChange index _ =>
      (type element =? "select") && (index <? option_rows element)%nat
  | AddOption => (type element =? "select") && showsAdd element
  | RemoveOption index =>
      (type element =? "select") && (index <? option_rows element)%nat
      && showsRemove element
  | ToggleMultipleChoice | MaxOptionsChange _ => type element =? "select"
  end.

(** The handler the control calls. *)
Definition fire (element : ElementType) (ev : Event) : Call :=
  match ev with
  | LabelChange v => handleLabelChange element v
  | DescriptionChange v => handleDescriptionChange element v
  | PlaceholderChange v => handlePlaceholderChange element v
  | RequiredChange v => handleRequiredChange element v
  | OptionChange index v => handleOptionChange element index v
  | AddOption => addOption element
  | RemoveOption index => removeOption element index
  | ToggleMultipleChoice => toggleMultipleChoice element
  | MaxOptionsChange parsed => handleMaxOptionsChange element parsed
  end.

(** The states an element goes through under edits made on its controls. *)
Inductive reachable (start : ElementType) : ElementType -> Prop :=
| reached_start : reachable start start
| reached_step element ev :
    reachable start element -> offered element ev = true ->
    reachable start (after element (fire element ev)).

End Controls.

(** ** The state of the preview form ([FormPreview.tsx]) *)

Module PreviewForm.
Import Js.
Import FormPreview.

(** [formData], by its own members. *)
Definition FormData := list (string * value).

(** [formData[id]] *)
Definition stored (formData : FormData) (id : string) : value :=
  match lookup id formData with
  | Some v => v
  | None => Undefined
  end.

(** [handleChange(id, value)]: [{ ...prev, [id]: value }] *)
Definition handleChange (prev : FormData) (id : string) (v : value) : FormData :=
  set id v prev.

(** [[...v]]: the items of an array, the characters of a string, a
    [TypeError] on anything else that passed [formData[id] || []]. *)
Definition spread_items (v : value) : option (list value) :=
  match v with
  | Arr items => Some items
  | Str s => Some (chars_of s)
  | _ => None
  end.

(** [v.filter(x => x !== option)], which only an array has. *)
Definition without_option (v : value) (choice : string) : option (list value) :=
  match v with
  | Arr items => Some (filter (fun x => negb (is_str x choice)) items)
  | _ => None
  end.

(** [onChange] of the checkbox of one option of a multiple-choice select. *)
Definition onChoiceChange (formData : FormData) (id choice : string)
    (checked : bool) : option FormData :=
  let currentValue := or_else (stored formData id) (Arr []) in
  newValue <- (if checked
               then items <- spread_items currentValue ;;
                    Some (items ++ [Str choice])
               else without_option currentValue choice) ;;
  Some (handleChange formData id (Arr newValue)).

(** [checked] of that checkbox:
    [Array.isArray(formData[id]) && formData[id].includes(option)] *)
Definition isChecked (formData : FormData) (id choice : string) : bool :=
  match stored formData id with
  | Arr items => existsb (fun x => is_str x choice) items
  | _ => false
  end.

(** One turn of the loop that seeds [initialData] from the [default] members. *)
Definition seedDefault (initialData : FormData) (entry : string * value)
    : option FormData :=
  let (key, prop) := entry in
  d <- get prop "default" ;;
  Some (if is_undefined d then initialData else set key d initialData).

(** [initialData] of the effect that runs when a schema is supplied:
    [Object.entries(jsonSchema.properties || {}).forEach(...)]. *)
Definition initialData (jsonSchema : value) : option FormData :=
  props <- get jsonSchema "properties" ;;
  forEach seedDefault (entries (or_else props (Obj []))) [].

End PreviewForm.

(** ** The shape of a generated schema *)

Module SchemaShape.
Import Js.

Definition json_type (t : string) : bool :=
  (t =? "object") || (t =? "string") || (t =? "number") || (t =? "boolean")
  || (t =? "array").

(** The [type] member is one of the type names of JSON Schema. *)
Definition typed (members : list (string * value)) : bool :=
  match lookup "type" members with
  | Some (Str t) => json_type t
  | _ => false
  end.

Definition keys_of (v : value) : list string :=
  match v with
  | Obj ps => map fst ps
  | _ => []
  end.

(** [required] is missing, [undefined] or an array of strings that all name
    a member of [properties]. *)
Definition closed_required (members : list (string * value)) : bool :=
  match lookup "required" members with
  | None | Some Undefined => true
  | Some (Arr names) =>
      forallb (fun n => match n with
                        | Str k =>
                            existsb (String.eqb k)
                              (match lookup "properties" members with
                               | Some ps => keys_of ps
                               | None => []
                               end)
                        | _ => false
                        end) names
  | Some _ => false
  end.

(** A schema object of the subset the converter writes, at every depth: a
    known [type], a [required] list that only names its own properties, and
    property schemas that are again such objects. *)
Fixpoint well_shaped (v : value) : bool :=
  match v with
  | Obj members =>
      typed members && closed_required members &&
      forallb (fun kv : string * value =>
                 let (k, x) := kv in
                 if k =? "properties"
                 then match x with
                      | Obj ps =>
                          forallb (fun kv' : string * value =>
                                     let (_, y) := kv' in well_shaped y) ps
                      | _ => false
                      end
                 else true) members
  | _ => false
  end.

End SchemaShape.

(** ** Sample trees and schemas *)

Module Samples.
Import Js.

(** An element holding only [id], [type] and [label]. *)
Definition field (i t l : string) : FormBuilder.ElementType :=
  FormBuilder.mkElement i t l None None None None None None None.

(** A section holding [id], [label] and [children]. *)
Definition section (i l : string) (c : list FormBuilder.ElementType)
    : FormBuilder.ElementType :=
  FormBuilder.mkElement i "section" l None None None None None None (Some c).

(** [[{type: text, id: "a", label: "Name", required: true},
      {type: section, id: "s", label: "Address",
       children: [{type: text, id: "s_line1", label: "Line 1"}]}]] *)
Definition address_form : list FormBuilder.ElementType :=
  [ FormBuilder.mkElement "a" "text" "Name" None None (Some true) None None
      None None;
    section "s" "Address" [field "s_line1" "text" "Line 1"] ].

(** The schema the specification gives for [address_form]. *)
Definition address_schema : value :=
  Obj [("type", Str "object");
       ("properties",
        Obj [("a", Obj [("type", Str "string"); ("title", Str "Name")]);
             ("s", Obj [("type", Str "object"); ("title", Str "Address");
                        ("properties",
                         Obj [("s_line1", Obj [("type", Str "string");
                                               ("title", Str "Line 1")])])])]);
       ("required", Arr [Str "a"])].

(** Two root sections, the first one holding a text field. *)
Definition two_sections : list FormBuilder.ElementType :=
  [ section "p" "Parent" [field "e" "text" "Moved"];
    section "s" "Target" [] ].

(** A select element with the given options and cap. *)
Definition select (opts : list string) (cap : option Z)
    : FormBuilder.ElementType :=
  FormBuilder.mkElement "sel" "select" "New select" None (Some "")
    (Some false) (Some opts) (Some false) cap None.

(** [{type: "object", title: "Survey",
      properties: {color: {type: "string", enum: ["Red", "Blue"]}}}] *)
Definition survey_schema : value :=
  Obj [("type", Str "object"); ("title", Str "Survey");
       ("properties",
        Obj [("color", Obj [("type", Str "string");
                            ("enum", Arr [Str "Red"; Str "Blue"])])])].

(** A titled schema with a property that is itself keyed [title]. *)
Definition titled_schema : value :=
  Obj [("type", Str "object"); ("title", Str "Survey");
       ("properties", Obj [("title", Obj [("type", Str "string")])])].

(** An object property with a number and a further object inside. *)
Definition nested_schema : value :=
  Obj [("type", Str "object");
       ("properties",
        Obj [("addr",
              Obj [("type", Str "object");
                   ("properties",
                    Obj [("n", Obj [("type", Str "number")]);
                         ("inner",
                          Obj [("type", Str "object");
                               ("properties",
                                Obj [("x", Obj [("type", Str "string")])])])])])])].

End Samples.

(** * Properties *)

(** ** List facts shared by the proofs below *)

Lemma map_fixes (A : Type) (f : A -> A) (l : list A) :
  Forall (fun x => f x = x) l -> map f l = l.
Proof.
  induction 1 as [|x l Hx _ IH]; simpl; [reflexivity|].
  now rewrite Hx, IH.
Qed.

Lemma flat_map_keeps (A : Type) (f : A -> option A) (l : list A) :
  Forall (fun x => f x = Some x) l ->
  flat_map (fun x => match f x with Some y => [y] | None => [] end) l = l.
Proof.
  induction 1 as [|x l Hx _ IH]; simpl; [reflexivity|].
  now rewrite Hx, IH.
Qed.

Lemma Forall_weaken_flat_map (A B : Type) (g : A -> list B) (P : A -> Prop)
    (Q : B -> Prop) (l : list A) :
  Forall (fun x => Forall Q (g x) -> P x) l ->
  Forall Q (flat_map g l) -> Forall P l.
Proof.
  induction 1 as [|x l Hx _ IH]; simpl; intros HQ; constructor.
  - apply Hx. apply Forall_app in HQ. tauto.
  - apply IH. apply Forall_app in HQ. tauto.
Qed.

Lemma NoDup_app_disjoint (A : Type) (l1 l2 : list A) (a : A) :
  NoDup (l1 ++ l2) -> In a l1 -> In a l2 -> False.
Proof.
  induction l1 as [|x l1 IH]; simpl; intros Hnd H1 H2; [contradiction|].
  inversion_clear Hnd as [|? ? Hx Hrest].
  destruct H1 as [->|H1].
  - apply Hx. apply in_or_app. now right.
  - now apply IH.
Qed.

Lemma NoDup_map_injective (A B : Type) (f : A -> B) (l : list A) (a b : A) :
  NoDup (map f l) -> In a l -> In b l -> f a = f b -> a = b.
Proof.
  induction l as [|x l IH]; simpl; intros Hnd Ha Hb Hf; [contradiction|].
  inversion_clear Hnd as [|? ? Hx Hrest].
  destruct Ha as [->|Ha], Hb as [->|Hb]; try reflexivity.
  - exfalso. apply Hx. rewrite Hf. now apply in_map.
  - exfalso. apply Hx. rewrite <- Hf. now apply in_map.
  - now apply IH.
Qed.

Lemma scan_from_none (A B : Type) (body : nat -> A -> option B) (l : list A) :
  Forall (fun x => forall k, body k x = None) l ->
  forall k, scan_from body k l = None.
Proof.
  induction 1 as [|x l Hx _ IH]; simpl; intros k; [reflexivity|].
  now rewrite Hx.
Qed.

Lemma scan_from_some (A B : Type) (body : nat -> A -> option B) (l : list A)
    (k : nat) (r : B) :
  scan_from body k l = Some r -> exists j x, In x l /\ body j x = Some r.
Proof.
  revert k. induction l as [|x l IH]; simpl; intros k H; [discriminate|].
  destruct (body k x) as [r'|] eqn:Hb.
  - exists k, x. split; [now left|]. congruence.
  - destruct (IH _ H) as (j & y & Hy & Hj). exists j, y. split; [now right|exact Hj].
Qed.

Lemma NoDup_app_middle (A : Type) (a b c : list A) :
  NoDup (a ++ b ++ c) ->
  NoDup (a ++ c) /\ forall x, In x b -> ~ In x (a ++ c).
Proof.
  induction b as [|y b IH]; simpl; intros H.
  - split; [exact H|]. intros x [].
  - pose proof (NoDup_remove_2 _ _ _ H) as Hy.
    apply NoDup_remove_1 in H. destruct (IH H) as [Hac Hb].
    split; [exact Hac|]. intros x [<-|Hx].
    + intros Hin. apply Hy. apply in_app_or in Hin as [Hin|Hin];
        apply in_or_app; [now left|right; apply in_or_app; now right].
    + now apply Hb.
Qed.

Lemma scan_from_app (A B : Type) (body : nat -> A -> option B) (l1 l2 : list A) :
  forall k,
    scan_from body k (l1 ++ l2)
    = match scan_from body k l1 with
      | Some r => Some r
      | None => scan_from body (k + List.length l1) l2
      end.
Proof.
  induction l1 as [|x l1 IH]; simpl; intros k.
  - now rewrite Nat.add_0_r.
  - destruct (body k x); [reflexivity|].
    rewrite IH. now rewrite Nat.add_succ_r.
Qed.

Lemma scan_from_none_each (A B : Type) (body : nat -> A -> option B) (l : list A) :
  forall k, scan_from body k l = None ->
  Forall (fun x => exists j, body j x = None) l.
Proof.
  induction l as [|x l IH]; simpl; intros k H; [constructor|].
  destruct (body k x) eqn:Hx; [discriminate|].
  constructor; [now exists k|]. eapply IH; eassumption.
Qed.

Lemma scan_from_index_free (A B : Type) (body : nat -> A -> option B)
    (l : list A) :
  (forall i j x, body i x = body j x) ->
  forall i j, scan_from body i l = scan_from body j l.
Proof.
  intros Hfree. induction l as [|x l IH]; simpl; intros i j; [reflexivity|].
  rewrite (Hfree i j x). destruct (body j x); [reflexivity|apply IH].
Qed.

(** ** The element tree manager *)

Module TreeManager.
Import FormBuilder.

Lemma with_children_same e c :
  children e = Some c -> with_children e c = e.
Proof. destruct e; simpl; intros ->; reflexivity. Qed.

Lemma updateAt_absent wanted updates e :
  Forall (fun x => id x <> wanted) (flatten e) ->
  updateAt wanted updates e = e.
Proof.
  induction e as [i t l d p r o m x|i t l d p r o m x c IH] using element_ind;
    simpl; intros H; inversion_clear H as [|? ? Hid Hrest]; simpl in Hid;
    apply String.eqb_neq in Hid; rewrite Hid; [reflexivity|].
  unfold with_children; simpl. do 2 f_equal.
  apply map_fixes.
  eapply Forall_weaken_flat_map; [|exact Hrest].
  exact IH.
Qed.

Lemma removeAt_absent wanted e :
  Forall (fun x => id x <> wanted) (flatten e) ->
  removeAt wanted e = Some e.
Proof.
  induction e as [i t l d p r o m x|i t l d p r o m x c IH] using element_ind;
    simpl; intros H; inversion_clear H as [|? ? Hid Hrest]; simpl in Hid;
    apply String.eqb_neq in Hid; rewrite Hid; [reflexivity|].
  unfold with_children; simpl. do 3 f_equal.
  apply flat_map_keeps.
  eapply Forall_weaken_flat_map; [|exact Hrest].
  exact IH.
Qed.

Lemma absent_everywhere elements wanted :
  ~ In wanted (all_ids elements) ->
  Forall (fun e => Forall (fun x => id x <> wanted) (flatten e)) elements.
Proof.
  unfold all_ids, all_elements. intros H.
  apply Forall_forall. intros e He. apply Forall_forall. intros x Hx Heq.
  apply H. apply in_map_iff. exists x. split; [exact Heq|].
  apply in_flat_map. exists e. split; assumption.
Qed.

(** C7. When no element of the tree carries the id [wanted], removing
    [wanted] and updating [wanted] with any fields both give back a tree
    equal to the one they were given. *)
Theorem remove_update_absent elements wanted updates :
  ~ In wanted (all_ids elements) ->
  handleElementRemove elements wanted = elements /\
  handleElementUpdate elements wanted updates = elements.
Proof.
  intros H. apply absent_everywhere in H. split.
  - unfold handleElementRemove, removeElement. apply flat_map_keeps.
    revert H. apply Forall_impl. intros e. apply removeAt_absent.
  - unfold handleElementUpdate. apply map_fixes.
    revert H. apply Forall_impl. intros e. apply updateAt_absent.
Qed.

(** *** Lookups in a tree whose ids are pairwise distinct *)

Lemma findAt_absent wanted e :
  absent wanted e -> forall elements p i, findAt wanted elements p i e = None.
Proof.
  unfold absent.
  induction e as [i t l d p r o m x|i t l d p r o m x c IH] using element_ind;
    simpl; intros H els q j; inversion_clear H as [|? ? Hid Hrest];
    simpl in Hid; apply String.eqb_neq in Hid; rewrite Hid; [reflexivity|].
  apply scan_from_none.
  assert (Hc : Forall (absent wanted) c).
  { eapply Forall_weaken_flat_map; [|exact Hrest].
    apply Forall_forall. intros y _ Hy. exact Hy. }
  apply Forall_forall. intros y Hy k.
  rewrite Forall_forall in IH, Hc. now apply IH; [|apply Hc].
Qed.

Lemma scan_here wanted whole pre l1 E l2 k :
  Forall (absent wanted) l1 -> id E = wanted ->
  scan_from (findAt wanted whole pre) k (l1 ++ E :: l2)
  = Some (mkFound E pre whole (k + List.length l1)).
Proof.
  intros H HE. revert k.
  induction H as [|y l1 Hy _ IH]; simpl; intros k.
  - destruct E; simpl in *. apply String.eqb_eq in HE. rewrite HE.
    now rewrite Nat.add_0_r.
  - rewrite (findAt_absent Hy). rewrite IH. now rewrite Nat.add_succ_r.
Qed.

Lemma scan_below wanted whole pre l1 S c l2 k f :
  Forall (absent wanted) l1 -> id S <> wanted -> children S = Some c ->
  scan_from (findAt wanted c (pre ++ [k + List.length l1])) 0 c = Some f ->
  scan_from (findAt wanted whole pre) k (l1 ++ S :: l2) = Some f.
Proof.
  intros H HS Hc. revert k.
  induction H as [|y l1 Hy _ IH]; simpl; intros k Hf.
  - rewrite Nat.add_0_r in Hf. destruct S; simpl in *.
    apply String.eqb_neq in HS. rewrite HS. subst. now rewrite Hf.
  - rewrite (findAt_absent Hy). apply IH. now rewrite Nat.add_succ_r in Hf.
Qed.

Lemma placed_inside p : forall elements arr i E,
  arrayAt elements p = Some arr -> nth_error arr i = Some E ->
  In E (all_elements elements).
Proof.
  unfold all_elements.
  induction p as [|j p IH]; simpl; intros elements arr i E Harr HE.
  - injection Harr as <-. apply in_flat_map. exists E.
    split; [eapply nth_error_In; eassumption|].
    destruct E; simpl; now left.
  - destruct (nth_error elements j) as [S|] eqn:HS; [|discriminate].
    destruct (children S) as [c|] eqn:Hc; [|discriminate].
    apply in_flat_map. exists S. split; [eapply nth_error_In; eassumption|].
    destruct S; simpl in *. right. subst. eapply IH; eassumption.
Qed.

Lemma all_ids_split l1 S l2 :
  all_ids (l1 ++ S :: l2)
  = all_ids l1 ++ map id (flatten S) ++ all_ids l2.
Proof.
  unfold all_ids, all_elements.
  rewrite flat_map_app. simpl. now rewrite !map_app.
Qed.

Lemma earlier_absent l1 rest wanted :
  NoDup (all_ids l1 ++ rest) -> In wanted rest ->
  Forall (absent wanted) l1.
Proof.
  intros Hnd Hin. apply Forall_forall. intros y Hy.
  apply Forall_forall. intros x Hx Heq.
  apply (NoDup_app_disjoint _ _ wanted Hnd); [|exact Hin].
  unfold all_ids, all_elements. apply in_map_iff. exists x.
  split; [exact Heq|]. apply in_flat_map. now exists y.
Qed.

Lemma find_placed p : forall elements pre i E arr,
  NoDup (all_ids elements) ->
  arrayAt elements p = Some arr -> nth_error arr i = Some E ->
  scan_from (findAt (id E) elements pre) 0 elements
  = Some (mkFound E (pre ++ p) arr i).
Proof.
  induction p as [|j p IH]; simpl; intros elements pre i E arr Hnd Harr HE.
  - injection Harr as <-.
    destruct (nth_error_split _ _ HE) as (l1 & l2 & -> & Hlen).
    rewrite all_ids_split in Hnd.
    rewrite scan_here; [now rewrite app_nil_r, Hlen| |reflexivity].
    eapply earlier_absent; [exact Hnd|].
    apply in_or_app. left. destruct E; simpl. now left.
  - destruct (nth_error elements j) as [S|] eqn:HS; [|discriminate].
    destruct (children S) as [c|] eqn:Hc; [|discriminate].
    pose proof (placed_inside _ _ _ Harr HE) as Hin.
    destruct (nth_error_split _ _ HS) as (l1 & l2 & -> & Hlen).
    rewrite all_ids_split in Hnd.
    assert (Hflat : map id (flatten S) = id S :: all_ids c).
    { destruct S; simpl in *. now subst. }
    rewrite Hflat in Hnd.
    assert (HinE : In (id E) (all_ids c)) by now apply in_map.
    eapply scan_below; [| |exact Hc|].
    + eapply earlier_absent; [exact Hnd|].
      apply in_or_app. left. now right.
    + apply NoDup_app_remove_l in Hnd. simpl in Hnd.
      inversion_clear Hnd as [|? ? Hx _]. intros Heq. apply Hx.
      apply in_or_app. left. now rewrite Heq.
    + simpl. rewrite Hlen.
      rewrite (IH c (pre ++ [j]) i E arr); [now rewrite <- app_assoc| |exact Harr|exact HE].
      apply NoDup_app_remove_l in Hnd. simpl in Hnd.
      inversion_clear Hnd as [|? ? _ Hrest].
      now apply NoDup_app_remove_r in Hrest.
Qed.

Lemma findElementAndParent_placed elements p i E arr :
  NoDup (all_ids elements) ->
  arrayAt elements p = Some arr -> nth_error arr i = Some E ->
  findElementAndParent elements (id E) = Some (mkFound E p arr i).
Proof.
  intros Hnd Harr HE. unfold findElementAndParent.
  now rewrite (@find_placed p elements [] i E arr Hnd Harr HE).
Qed.

Lemma findSectionAt_sound overId e s :
  findSectionAt overId e = Some s ->
  In s (flatten e) /\ id s = overId /\ type s = "section".
Proof.
  revert s.
  induction e as [i t l d p r o m x|i t l d p r o m x c IH] using element_ind;
    simpl; intros s; destruct ((i =? overId) && (t =? "section")) eqn:Hhit;
    intros H; try discriminate;
    try (injection H as <-; apply andb_prop in Hhit as [Hi Ht];
         apply String.eqb_eq in Hi, Ht; simpl; now auto).
  apply scan_from_some in H as (j & y & Hy & Hj).
  rewrite Forall_forall in IH. destruct (IH y Hy s Hj) as (Hin & Hid & Hty).
  repeat split; try assumption. right. apply in_flat_map. now exists y.
Qed.

Lemma findSection_sound elements overId s :
  findSection elements overId = Some s ->
  In s (all_elements elements) /\ id s = overId /\ type s = "section".
Proof.
  unfold findSection. intros H.
  apply scan_from_some in H as (j & y & Hy & Hj).
  destruct (findSectionAt_sound _ _ Hj) as (Hin & Hid & Hty).
  repeat split; try assumption. apply in_flat_map. now exists y.
Qed.

Lemma findSection_not_a_section elements O :
  NoDup (all_ids elements) -> In O (all_elements elements) ->
  type O <> "section" -> findSection elements (id O) = None.
Proof.
  intros Hnd HO Hty.
  destruct (findSection elements (id O)) as [s|] eqn:Hs; [|reflexivity].
  apply findSection_sound in Hs as (Hin & Hid & Hsec).
  assert (s = O) by (eapply NoDup_map_injective; eassumption).
  subst. contradiction.
Qed.

Lemma place_eqb_neq p q : p <> q -> place_eqb p q = false.
Proof.
  unfold place_eqb. intros H. now destruct (list_eq_dec Nat.eq_dec p q).
Qed.

(** C5. In a tree whose ids are pairwise distinct, let [E] and [O] be placed
    elements that sit in different arrays, [O] not being a section.  Then
    dragging [E] over [O] leaves the tree as it was. *)
Theorem cross_parent_drag_is_noop elements pE iE E pO iO O now :
  NoDup (all_ids elements) ->
  placed elements pE iE E -> placed elements pO iO O ->
  pE <> pO -> type O <> "section" ->
  handleDragEnd elements (id E) (Some (id O)) now = elements.
Proof.
  intros Hnd (arrE & HarrE & HE) (arrO & HarrO & HO) Hplaces Hty.
  unfold handleDragEnd.
  assert (Hsec : findSection elements (id O) = None).
  { apply findSection_not_a_section;
      [exact Hnd|eapply placed_inside; eassumption|exact Hty]. }
  assert (HfE : findElementAndParent elements (id E)
                = Some (mkFound E pE arrE iE))
    by (apply findElementAndParent_placed; assumption).
  assert (HfO : findElementAndParent elements (id O)
                = Some (mkFound O pO arrO iO))
    by (apply findElementAndParent_placed; assumption).
  rewrite Hsec, HfE, HfO.
  simpl. now rewrite (place_eqb_neq Hplaces).
Qed.

(** *** Dragging a root element into a section *)

Lemma findAt_none_absent wanted e :
  forall elements p i, findAt wanted elements p i e = None -> absent wanted e.
Proof.
  unfold absent.
  induction e as [i t l d p r o m x|i t l d p r o m x c IH] using element_ind;
    simpl; intros els q j H; destruct (i =? wanted) eqn:Hid;
    try discriminate; apply String.eqb_neq in Hid;
    (constructor; [exact Hid|]); [constructor|].
  apply scan_from_none_each in H.
  apply Forall_forall. intros z Hz. apply in_flat_map in Hz as (y & Hy & Hz).
  rewrite Forall_forall in IH, H. destruct (H y Hy) as (k & Hk).
  specialize (IH y Hy _ _ _ Hk). rewrite Forall_forall in IH. now apply IH.
Qed.

Lemma findElementAndParent_finds elements x :
  In x (all_elements elements) ->
  exists f, findElementAndParent elements (id x) = Some f.
Proof.
  intros Hx. destruct (findElementAndParent elements (id x)) as [f|] eqn:H;
    [now exists f|exfalso].
  unfold findElementAndParent in H. apply scan_from_none_each in H.
  apply in_flat_map in Hx as (y & Hy & Hx).
  rewrite Forall_forall in H. destruct (H y Hy) as (k & Hk).
  apply findAt_none_absent in Hk. unfold absent in Hk.
  rewrite Forall_forall in Hk. now apply (Hk x Hx).
Qed.

Lemma appendInto_absent targetId moved e :
  absent targetId e -> appendInto targetId moved e = e.
Proof.
  unfold absent.
  induction e as [i t l d p r o m x|i t l d p r o m x c IH] using element_ind;
    simpl; intros H; inversion_clear H as [|? ? Hid Hrest]; simpl in Hid;
    apply String.eqb_neq in Hid; rewrite Hid; [reflexivity|].
  unfold with_children; simpl. do 2 f_equal.
  apply map_fixes.
  eapply Forall_weaken_flat_map; [|exact Hrest].
  exact IH.
Qed.

Lemma all_ids_cons y l :
  all_ids (y :: l) = map id (flatten y) ++ all_ids l.
Proof. unfold all_ids, all_elements. simpl. now rewrite map_app. Qed.

Lemma all_ids_app l1 l2 :
  all_ids (l1 ++ l2) = all_ids l1 ++ all_ids l2.
Proof.
  unfold all_ids, all_elements. now rewrite flat_map_app, map_app.
Qed.

Lemma scan_appended sid moved c :
  Forall (fun y => forall S,
            NoDup (map id (flatten y)) ->
            findSectionAt sid y = Some S ->
            findSectionAt sid (appendInto sid moved y)
            = Some (push_child S moved)) c ->
  forall S k,
    NoDup (all_ids c) ->
    scan_from (fun _ => findSectionAt sid) k c = Some S ->
    scan_from (fun _ => findSectionAt sid) k (map (appendInto sid moved) c)
    = Some (push_child S moved).
Proof.
  induction 1 as [|y c Hy _ IH]; simpl; intros S k Hnd Hscan; [discriminate|].
  rewrite all_ids_cons in Hnd.
  destruct (findSectionAt sid y) as [S'|] eqn:Hfound.
  - injection Hscan as ->.
    now rewrite (Hy S (NoDup_app_remove_r _ _ Hnd) eq_refl).
  - assert (Habsent : absent sid y).
    { apply scan_from_some in Hscan as (j & z & Hz & Hj).
      apply findSectionAt_sound in Hj as (Hin & Hid & _).
      apply Forall_forall. intros x Hx Heq.
      apply (NoDup_app_disjoint _ _ sid Hnd).
      - rewrite <- Heq. now apply in_map.
      - rewrite <- Hid. unfold all_ids, all_elements. apply in_map.
        apply in_flat_map. now exists z. }
    rewrite (appendInto_absent moved Habsent), Hfound.
    apply IH; [now apply NoDup_app_remove_l in Hnd|exact Hscan].
Qed.

Lemma findSectionAt_appended sid moved e :
  forall S,
    NoDup (map id (flatten e)) ->
    findSectionAt sid e = Some S ->
    findSectionAt sid (appendInto sid moved e) = Some (push_child S moved).
Proof.
  induction e as [i t l d p r o m x|i t l d p r o m x c IH] using element_ind;
    simpl; intros S Hnd H.
  - destruct ((i =? sid) && (t =? "section")) eqn:Hhit; [|discriminate].
    injection H as <-. apply andb_prop in Hhit as [Hi Ht].
    rewrite Hi. simpl. now rewrite Hi, Ht.
  - destruct ((i =? sid) && (t =? "section")) eqn:Hhit.
    + injection H as <-. apply andb_prop in Hhit as [Hi Ht].
      rewrite Hi. simpl. now rewrite Hi, Ht.
    + inversion_clear Hnd as [|? ? Hfresh Hrest].
      destruct (i =? sid) eqn:Hi.
      * exfalso. apply String.eqb_eq in Hi. subst i. apply Hfresh.
        apply scan_from_some in H as (j & z & Hz & Hj).
        apply findSectionAt_sound in Hj as (Hin & Hid & _).
        rewrite <- Hid. apply in_map. apply in_flat_map. now exists z.
      * simpl. rewrite Hi. simpl. now apply scan_appended.
Qed.

Lemma findSection_appended sid moved elements S :
  NoDup (all_ids elements) ->
  findSection elements sid = Some S ->
  findSection (updateElements_append sid moved elements) sid
  = Some (push_child S moved).
Proof.
  unfold findSection, updateElements_append. intros Hnd H.
  apply scan_appended; [|exact Hnd|exact H].
  apply Forall_forall. intros y _ S'. apply findSectionAt_appended.
Qed.

Lemma appendInto_id targetId moved e :
  id (appendInto targetId moved e) = id e.
Proof.
  destruct e as [i t l d p r o m x [c|]]; simpl;
    destruct (i =? targetId); reflexivity.
Qed.

Lemma root_ids_differ l1 E l2 :
  NoDup (all_ids (l1 ++ E :: l2)) ->
  NoDup (all_ids (l1 ++ l2)) /\
  (forall x, In x (all_ids (l1 ++ l2)) -> ~ In x (map id (flatten E))) /\
  Forall (fun y => id y <> id E) (l1 ++ l2).
Proof.
  rewrite all_ids_split, all_ids_app. intros Hnd.
  apply NoDup_app_middle in Hnd as [Hrest Hmid].
  split; [exact Hrest|]. split.
  - intros x Hx HE. now apply (Hmid x HE).
  - apply Forall_forall. intros y Hy Heq.
    apply (Hmid (id E)); [destruct E; simpl; now left|].
    rewrite <- Heq, <- all_ids_app. unfold all_ids, all_elements.
    apply in_map. apply in_flat_map. exists y. split; [exact Hy|].
    destruct y; simpl; now left.
Qed.

Lemma filter_all (A : Type) (f : A -> bool) (l : list A) :
  Forall (fun x => f x = true) l -> filter f l = l.
Proof.
  induction 1 as [|x l Hx _ IH]; simpl; [reflexivity|].
  now rewrite Hx, IH.
Qed.

Lemma filter_detaches l1 E l2 :
  Forall (fun y => id y <> id E) (l1 ++ l2) ->
  filter (fun e => negb (id e =? id E)) (l1 ++ E :: l2) = l1 ++ l2.
Proof.
  intros H. apply Forall_app in H as [H1 H2].
  rewrite filter_app. simpl. rewrite String.eqb_refl. simpl.
  rewrite !filter_all; [reflexivity| |];
    [revert H2|revert H1]; apply Forall_impl; intros y Hy;
    apply String.eqb_neq in Hy; now rewrite Hy.
Qed.

(** The root branch of the re-parenting move detaches and appends.  In a
    tree with pairwise distinct ids, let [E] be an item of the root array and
    let the drop target resolve to a section [S] of the rest of the tree.
    Then the new root array is the old one without [E] and with [E] appended
    to the target: no root item carries the id of [E] any more, and the
    section now found under the target id is [S] with [E] as its last
    child. *)
Theorem root_drag_into_section_reparents l1 E l2 S sid now :
  NoDup (all_ids (l1 ++ E :: l2)) ->
  findSection (l1 ++ l2) sid = Some S ->
  handleDragEnd (l1 ++ E :: l2) (id E) (Some sid) now
  = updateElements_append sid E (l1 ++ l2) /\
  Forall (fun x => id x <> id E) (updateElements_append sid E (l1 ++ l2)) /\
  findSection (updateElements_append sid E (l1 ++ l2)) sid
  = Some (push_child S E).
Proof.
  intros Hnd HS.
  destruct (root_ids_differ _ _ _ Hnd) as (Hrest & Hapart & Hroot).
  pose proof (findSection_sound _ _ HS) as (HSin & HSid & _).
  assert (HE : findSectionAt sid E = None).
  { destruct (findSectionAt sid E) as [s|] eqn:Hs; [exfalso|reflexivity].
    apply findSectionAt_sound in Hs as (Hin & Hid & _).
    apply (Hapart sid).
    - rewrite <- HSid. unfold all_ids. now apply in_map.
    - rewrite <- Hid. now apply in_map. }
  assert (Htarget : findSection (l1 ++ E :: l2) sid = Some S).
  { revert HS. unfold findSection. rewrite !scan_from_app.
    cbn [scan_from]. rewrite HE.
    rewrite (@scan_from_index_free _ _ (fun _ => findSectionAt sid) l2
               (fun _ _ _ => eq_refl)
               (Datatypes.S (0 + List.length l1)) (0 + List.length l1)).
    tauto. }
  split; [|split].
  - assert (Hactive : findElementAndParent (l1 ++ E :: l2) (id E)
                      = Some (mkFound E [] (l1 ++ E :: l2) (List.length l1))).
    { apply findElementAndParent_placed; [exact Hnd|reflexivity|].
      clear. induction l1; simpl; auto. }
    destruct (@findElementAndParent_finds (l1 ++ E :: l2) S) as (o & Hover).
    { unfold all_elements in *. rewrite flat_map_app in *. simpl.
      apply in_app_or in HSin as [Hin|Hin]; apply in_or_app; [now left|right].
      apply in_or_app. now right. }
    rewrite HSid in Hover.
    unfold handleDragEnd. rewrite Htarget, Hactive, Hover.
    cbn [parentPlace parent element]. rewrite HSid, String.eqb_refl. simpl.
    now rewrite filter_detaches.
  - unfold updateElements_append. apply Forall_map.
    revert Hroot. apply Forall_impl. intros y Hy. now rewrite appendInto_id.
  - now apply findSection_appended.
Qed.

(** C7, at the sample address form and the id ["x"]. *)
Lemma remove_update_absent_witness :
  ~ In "x" (all_ids Samples.address_form) /\
  (handleElementRemove Samples.address_form "x" = Samples.address_form /\
   handleElementUpdate Samples.address_form "x" no_updates
   = Samples.address_form).
Proof.
  assert (H : ~ In "x" (all_ids Samples.address_form)).
  { simpl. intros [H|[H|[H|[]]]]; discriminate H. }
  split; [exact H|].
  exact (@remove_update_absent Samples.address_form "x" no_updates H).
Defined.

(** C5, at the sample address form: the root field ["a"] dragged over the
    field ["s_line1"] inside the section. *)
Lemma cross_parent_drag_is_noop_witness :
  handleDragEnd Samples.address_form "a" (Some "s_line1") 0
  = Samples.address_form.
Proof.
  apply (@cross_parent_drag_is_noop Samples.address_form
           [] 0 (FormBuilder.mkElement "a" "text" "Name" None None (Some true)
                   None None None None)
           [1] 0 (Samples.field "s_line1" "text" "Line 1") 0%N).
  - simpl. repeat constructor; simpl; intuition discriminate.
  - eexists. split; reflexivity.
  - eexists. split; reflexivity.
  - discriminate.
  - discriminate.
Defined.

(** C1, evaluated where it fails.  The field ["e"] sits in the section ["p"]
    and is dragged over the empty section ["s"]: it is appended to ["s"] and
    is still in the children of ["p"], so the tree holds it twice. *)
Theorem nested_drag_into_section_keeps_source now :
  handleDragEnd Samples.two_sections "e" (Some "s") now
  = [ Samples.section "p" "Parent" [Samples.field "e" "text" "Moved"];
      Samples.section "s" "Target" [Samples.field "e" "text" "Moved"] ].
Proof. reflexivity. Qed.

(** The same drag from the root array does detach the element: the section
    ["p"] leaves the root and ends the children of ["s"]. *)
Example root_drag_into_section_detaches now :
  handleDragEnd Samples.two_sections "p" (Some "s") now
  = [ Samples.section "s" "Target"
        [Samples.section "p" "Parent" [Samples.field "e" "text" "Moved"]] ].
Proof. reflexivity. Qed.

End TreeManager.

(** ** The option controls *)

Module Options.
Import FormBuilder.
Import FormElement.

Lemma filteri_past index : forall (l : list string) k,
  index < k ->
  filteri_from (fun i _ => negb (i =? index)%nat) k l = l.
Proof.
  induction l as [|x l IH]; simpl; intros k Hk; [reflexivity|].
  replace (k =? index)%nat with false by (symmetry; apply Nat.eqb_neq; lia).
  simpl. rewrite IH; [reflexivity|lia].
Qed.

Lemma filteri_drops_at_most_one index : forall (l : list string) k,
  List.length l
  <= S (List.length (filteri_from (fun i _ => negb (i =? index)%nat) k l)).
Proof.
  induction l as [|x l IH]; simpl; intros k; [lia|].
  destruct (k =? index)%nat eqn:Hk; simpl.
  - apply Nat.eqb_eq in Hk. rewrite filteri_past; lia.
  - specialize (IH (S k)). lia.
Qed.

(** C8. After [removeOption] the element still has its options list; the
    list holds at least two entries whenever it held at least two before
    (the minimum of the data model), and it is the list it was whenever it
    held two entries or fewer. *)
Theorem removeOption_keeps_two element opts index :
  options element = Some opts ->
  exists opts',
    options (after element (removeOption element index)) = Some opts' /\
    (2 <= List.length opts -> 2 <= List.length opts') /\
    (List.length opts <= 2 -> opts' = opts).
Proof.
  intros Hopts. unfold removeOption. rewrite Hopts.
  destruct (List.length opts <=? 2)%nat eqn:Hle; simpl.
  - exists opts. auto.
  - apply Nat.leb_gt in Hle. eexists. split; [reflexivity|]. split; [|lia].
    pose proof (filteri_drops_at_most_one index opts 0). lia.
Qed.

(** C8, at a select element with three options, the middle one removed, and
    at one with two options. *)
Lemma removeOption_keeps_two_witness :
  (exists opts',
     options (after (Samples.select ["A"; "B"; "C"] (Some 4%Z))
                (removeOption (Samples.select ["A"; "B"; "C"] (Some 4%Z)) 1))
     = Some opts' /\ 2 <= List.length opts') /\
  options (after (Samples.select ["A"; "B"] (Some 4%Z))
             (removeOption (Samples.select ["A"; "B"] (Some 4%Z)) 0))
  = Some ["A"; "B"].
Proof.
  split.
  - destruct (@removeOption_keeps_two
                (Samples.select ["A"; "B"; "C"] (Some 4%Z)) ["A"; "B"; "C"] 1
                eq_refl) as (opts' & Hopts & Hfloor & _).
    exists opts'. split; [exact Hopts|]. apply Hfloor. simpl. lia.
  - destruct (@removeOption_keeps_two
                (Samples.select ["A"; "B"] (Some 4%Z)) ["A"; "B"] 0
                eq_refl) as (opts' & Hopts & _ & Hsame).
    rewrite Hopts. f_equal. apply Hsame. simpl. lia.
Defined.

(** C9. On an element with an options list and [maxOptions] set to [M]
    (a number other than [0], which the guard reads as unset), [addOption]
    does nothing when the list already holds [M] entries or more, and
    otherwise appends exactly one entry, the list then holding at most [M]. *)
Theorem addOption_respects_cap element opts M :
  options element = Some opts -> maxOptions element = Some M -> M <> 0%Z ->
  ((M <= Z.of_nat (List.length opts))%Z ->
     addOption element = None /\
     after element (addOption element) = element) /\
  ((Z.of_nat (List.length opts) < M)%Z ->
     exists added,
       options (after element (addOption element)) = Some (opts ++ [added]) /\
       added = ("Option " ++ decimal_of_nat (List.length opts + 1))%string /\
       (Z.of_nat (List.length (opts ++ [added])) <= M)%Z).
Proof.
  intros Hopts Hmax HM. unfold addOption. rewrite Hopts, Hmax.
  apply Z.eqb_neq in HM. rewrite HM. simpl. split; intros Hlen.
  - apply Z.leb_le in Hlen. rewrite Hlen. split; reflexivity.
  - replace (M <=? Z.of_nat (List.length opts))%Z with false
      by (symmetry; apply Z.leb_gt; exact Hlen).
    eexists. split; [reflexivity|]. split; [reflexivity|].
    rewrite length_app. simpl. lia.
Qed.

(** C9, at a select element with two options and a cap of four. *)
Lemma addOption_respects_cap_witness :
  options (after (Samples.select ["A"; "B"] (Some 4%Z))
             (addOption (Samples.select ["A"; "B"] (Some 4%Z))))
  = Some ["A"; "B"; "Option 3"].
Proof.
  destruct (@addOption_respects_cap (Samples.select ["A"; "B"] (Some 4%Z))
              ["A"; "B"] 4%Z eq_refl eq_refl) as [_ Hadd].
  - discriminate.
  - destruct Hadd as (added & Hres & Hadded & _); [simpl; lia|].
    rewrite Hres, Hadded. reflexivity.
Defined.

End Options.

(** ** Tree to schema *)

Module Forward.
Import FormBuilder.
Import Js.
Import SchemaConverter.

(** The object returned for the sample address form, member by member: every
    entry carries a [description] member whose value is [undefined]. *)
Example address_form_object :
  to_value (elementsToJsonSchema Samples.address_form)
  = Obj [("type", Str "object");
         ("properties",
          Obj [("a", Obj [("title", Str "Name"); ("description", Undefined);
                          ("type", Str "string")]);
               ("s", Obj [("type", Str "object"); ("title", Str "Address");
                          ("description", Undefined);
                          ("properties",
                           Obj [("s_line1",
                                 Obj [("title", Str "Line 1");
                                      ("description", Undefined);
                                      ("type", Str "string")])])])]);
         ("required", Arr [Str "a"])].
Proof. reflexivity. Qed.

(** C4. Forward conversion of the sample address form is, as a JSON
    document, the schema the specification gives for it: the same members
    with the same values at every level and none besides (the order of the
    members of an object apart). *)
Theorem address_form_schema :
  json_of (to_value (elementsToJsonSchema Samples.address_form))
  = Obj [("type", Str "object");
         ("properties",
          Obj [("a", Obj [("title", Str "Name"); ("type", Str "string")]);
               ("s", Obj [("type", Str "object"); ("title", Str "Address");
                          ("properties",
                           Obj [("s_line1",
                                 Obj [("title", Str "Line 1");
                                      ("type", Str "string")])])])]);
         ("required", Arr [Str "a"])]
  /\ same_json (json_of (to_value (elementsToJsonSchema Samples.address_form)))
       Samples.address_schema = true
  /\ same_json Samples.address_schema
       (json_of (to_value (elementsToJsonSchema Samples.address_form))) = true.
Proof. repeat split. Qed.

(** *** The schema the builder shows and validates against *)

Lemma set_keeps_objects k v members :
  (exists ms, v = Obj ms) ->
  Forall (fun kv : string * value => exists ms, snd kv = Obj ms) members ->
  Forall (fun kv : string * value => exists ms, snd kv = Obj ms)
    (set k v members).
Proof.
  intros Hv. induction 1 as [|[k' v'] rest Hkv Hrest IH]; simpl.
  - constructor; [exact Hv|constructor].
  - destruct (k' =? k)%string; constructor; assumption.
Qed.

Lemma entryOf_object e : exists ms, entryOf e = Obj ms.
Proof.
  destruct e as [i t l d p r o m x [c|]]; simpl;
    destruct (t =? "section")%string; eexists; reflexivity.
Qed.

Lemma visit_keeps_objects elements : forall acc,
  Forall (fun kv : string * value => exists ms, snd kv = Obj ms) (fst acc) ->
  Forall (fun kv : string * value => exists ms, snd kv = Obj ms)
    (fst (fold_left (visit entryOf) elements acc)).
Proof.
  induction elements as [|e elements IH]; simpl; intros acc H; [exact H|].
  apply IH. simpl. apply set_keeps_objects; [apply entryOf_object|exact H].
Qed.

Lemma properties_are_objects elements :
  Forall (fun kv : string * value => exists ms, snd kv = Obj ms)
    (properties (elementsToJsonSchema elements)).
Proof.
  unfold elementsToJsonSchema, walk. destruct elements as [|e elements].
  - constructor.
  - cbn [properties]. apply visit_keeps_objects. constructor.
Qed.

Lemma lookup_in k : forall members v,
  lookup k members = Some v -> In (k, v) members.
Proof.
  induction members as [|[k' v'] rest IH]; simpl; intros v H; [discriminate|].
  destruct (k' =? k)%string eqn:Hk.
  - apply String.eqb_eq in Hk. injection H as <-. subst. now left.
  - right. now apply IH.
Qed.

Lemma json_members_are_objects members k v :
  Forall (fun kv : string * value => exists ms, snd kv = Obj ms) members ->
  In (k, v)
    (flat_map (fun kv : string * value =>
                 let (k, x) := kv in
                 if is_undefined x then [] else [(k, json_of x)]) members) ->
  exists ms, v = Obj ms.
Proof.
  intros H Hin. apply in_flat_map in Hin as ([k' x] & Hx & Hin).
  rewrite Forall_forall in H. destruct (H _ Hx) as (ms & Hms).
  simpl in Hms. subst x. simpl in Hin. destruct Hin as [Heq|[]].
  injection Heq as _ <-. eexists. reflexivity.
Qed.

Lemma same_json_objects ms ns :
  same_json (Obj ms) (Obj ns)
  = (List.length ms =? List.length ns)%nat &&
    forallb (fun kv : string * value =>
               let (k, x) := kv in
               match lookup k ns with
               | Some y => same_json x y
               | None => false
               end) ms.
Proof. reflexivity. Qed.

(** A schema object is never equal to its own property map when that map
    holds objects only: its [type] is a string. *)
Lemma schema_is_not_its_properties ty shown :
  Forall (fun kv : string * value => exists ms, snd kv = Obj ms) shown ->
  same_json (Obj [("type", Str ty); ("properties", Obj shown)]) (Obj shown)
  = false.
Proof.
  intros Hobj. rewrite same_json_objects. cbn [forallb].
  destruct (lookup "type" shown) as [y|] eqn:Hy;
    [|now rewrite andb_false_r].
  apply lookup_in in Hy. rewrite Forall_forall in Hobj.
  destruct (Hobj _ Hy) as (ms & Hms). simpl in Hms. subst y.
  cbn [same_json]. now rewrite andb_false_r.
Qed.

Lemma json_members_objects members :
  Forall (fun kv : string * value => exists ms, snd kv = Obj ms) members ->
  Forall (fun kv : string * value => exists ms, snd kv = Obj ms)
    (flat_map (fun kv : string * value =>
                 let (k, x) := kv in
                 if is_undefined x then [] else [(k, json_of x)]) members).
Proof.
  intros H. apply Forall_forall. intros [k v] Hin.
  simpl. eapply json_members_are_objects; eassumption.
Qed.

(** For every tree, what the builder shows and validates against is not the
    converter's result, also when both are read as JSON documents: it is
    that result put under the [properties] of one more object. *)
Lemma builder_schema_is_never_the_converter_result elements :
  same_json (json_of (builderSchema elements))
    (json_of (to_value (elementsToJsonSchema elements))) = false.
Proof.
  pose proof (properties_are_objects elements) as Hobj.
  apply json_members_objects in Hobj.
  unfold builderSchema, to_value.
  destruct (elementsToJsonSchema elements) as [ty props req].
  cbn [schema_type properties required_ids] in *.
  destruct req as [r|]; [reflexivity|].
  cbn -[same_json lookup String.eqb].
  set (shown := flat_map _ props) in *.
  rewrite same_json_objects. cbn [forallb].
  replace (lookup "properties" [("type", Str ty); ("properties", Obj shown)])
    with (Some (Obj shown)) by reflexivity.
  rewrite schema_is_not_its_properties by exact Hobj.
  now rewrite !andb_false_r.
Qed.

(** C2, evaluated at a tree of one text field.  The converter returns the
    schema [{type, properties: {a}}]; the object the builder shows and hands
    to the validator has that whole schema as its [properties], so its
    properties are keyed [type] and [properties] and not [a]. *)
Theorem builder_schema_wraps_converter_result :
  json_of (to_value (elementsToJsonSchema [Samples.field "a" "text" "Name"]))
  = Obj [("type", Str "object");
         ("properties",
          Obj [("a", Obj [("title", Str "Name"); ("type", Str "string")])])]
  /\ json_of (builderSchema [Samples.field "a" "text" "Name"])
     = Obj [("type", Str "object");
            ("properties",
             Obj [("type", Str "object");
                  ("properties",
                   Obj [("a", Obj [("title", Str "Name");
                                   ("type", Str "string")])])])]
  /\ same_json (json_of (builderSchema [Samples.field "a" "text" "Name"]))
       (json_of (to_value
                   (elementsToJsonSchema [Samples.field "a" "text" "Name"])))
     = false.
Proof. repeat split. Qed.

End Forward.

(** ** Schema to tree *)

Module Reverse.
Import Js.
Import FormPreview.

(** *** What a step of the conversion does to the element list *)

Lemma elements_note k d c :
  convertedElements (note_description k d c) = convertedElements c.
Proof. unfold note_description. now destruct (truthy d). Qed.

Lemma elements_set_label k v c :
  convertedElements (set_label k v c) = convertedElements c.
Proof. reflexivity. Qed.

Lemma elements_push e c :
  convertedElements (push e c) = convertedElements c ++ [e].
Proof. reflexivity. Qed.

Create Rewrite HintDb conv.
#[local] Hint Rewrite elements_note elements_set_label elements_push : conv.

(** One step through a computation that is known to have returned. *)
Ltac returned :=
  match goal with
  | H : bind ?m _ = Some _ |- _ =>
      let E := fresh "E" in
      destruct m eqn:E; cbn [bind] in H; [|discriminate H]
  | H : (if ?b then _ else _) = Some _ |- _ =>
      let E := fresh "E" in destruct b eqn:E
  | H : Some _ = Some _ |- _ => injection H as H; subst
  end.

Lemma convertChild_keeps key prop st entry st' :
  convertChild key prop st entry = Some st' ->
  convertedElements (snd st') = convertedElements (snd st).
Proof.
  destruct entry as [childKey childProp], st as [kids c].
  unfold convertChild. intros H. repeat returned.
  cbn [snd]. now autorewrite with conv.
Qed.

Lemma children_loop_keeps key prop : forall l st st',
  forEach (convertChild key prop) l st = Some st' ->
  convertedElements (snd st') = convertedElements (snd st).
Proof.
  induction l as [|entry l IH]; simpl; intros st st' H.
  - now injection H as <-.
  - returned. rewrite (IH _ _ H). eapply convertChild_keeps; eassumption.
Qed.

Lemma convertProperty_extends schema c entry c' :
  convertProperty schema c entry = Some c' ->
  exists more, convertedElements c' = convertedElements c ++ more.
Proof.
  destruct entry as [key prop]. unfold convertProperty. intros H.
  repeat returned; autorewrite with conv;
    try (eexists; reflexivity);
    try (exists []; now rewrite app_nil_r).
  - match goal with
    | L : forEach _ _ _ = Some _ |- _ =>
        apply children_loop_keeps in L; cbn [snd] in L; rewrite L
    end.
    autorewrite with conv. eexists; reflexivity.
  - cbn [snd]. autorewrite with conv. eexists; reflexivity.
Qed.

Lemma properties_loop_extends schema : forall l c c',
  forEach (convertProperty schema) l c = Some c' ->
  exists more, convertedElements c' = convertedElements c ++ more.
Proof.
  induction l as [|entry l IH]; simpl; intros c c' H.
  - injection H as <-. exists []. now rewrite app_nil_r.
  - returned. destruct (IH _ _ H) as (more & ->).
    destruct (convertProperty_extends _ _ _ E) as (more' & ->).
    exists (more' ++ more). now rewrite app_assoc.
Qed.

(** C6. Reverse conversion of the survey schema gives two elements: a
    title element labelled "Survey", then a single-choice select element
    with id "color" and the options "Red" and "Blue". *)
Theorem survey_schema_elements :
  exists c first second,
    convertJsonSchemaToElements Samples.survey_schema = Some c /\
    convertedElements c = [first; second] /\
    type first = "title" /\ label first = Str "Survey" /\
    type second = "select" /\ id second = "color" /\
    options second = Arr [Str "Red"; Str "Blue"] /\
    isMultipleChoice second = Some false.
Proof. do 3 eexists. repeat split. Qed.

(** C10. Whenever the schema has a truthy top-level [title] and the
    conversion returns, the first element of the result is the title element
    and its id is the fixed string "title".  A schema that also has a
    property keyed "title" therefore converts to a list holding two
    different elements with the id "title": the ids of the result are not
    pairwise distinct. *)
Theorem title_id_collides :
  (forall schema title c,
     get schema "title" = Some title -> truthy title = true ->
     convertJsonSchemaToElements schema = Some c ->
     exists first rest,
       convertedElements c = first :: rest /\
       id first = "title" /\ type first = "title" /\ label first = title)
  /\
  (exists schema c first second,
     (exists prop, In ("title", prop) (propertiesOf schema)) /\
     convertJsonSchemaToElements schema = Some c /\
     nth_error (convertedElements c) 0 = Some first /\
     nth_error (convertedElements c) 1 = Some second /\
     id first = "title" /\ id second = "title" /\ first <> second /\
     ~ NoDup (map id (convertedElements c))).
Proof.
  split.
  - intros schema title c Htitle Htruthy H.
    unfold convertJsonSchemaToElements in H. rewrite Htitle in H.
    cbn [bind] in H. rewrite Htruthy in H.
    repeat returned.
    + apply properties_loop_extends in H as (more & ->).
      autorewrite with conv. cbn [convertedElements app].
      do 2 eexists. repeat split.
    + autorewrite with conv. cbn [convertedElements app].
      do 2 eexists. repeat split.
  - exists Samples.titled_schema. do 3 eexists.
    split; [eexists; left; reflexivity|].
    split; [reflexivity|]. cbn.
    repeat (split; [reflexivity|]). split; [discriminate|].
    intros Hnd. inversion_clear Hnd as [|? ? Hin _]. apply Hin. now left.
Qed.

(** C10, at the sample titled schema. *)
Lemma title_id_collides_witness :
  exists c first rest,
    convertJsonSchemaToElements Samples.titled_schema = Some c /\
    convertedElements c = first :: rest /\ id first = "title".
Proof.
  destruct title_id_collides as [Hhead _].
  destruct (Hhead Samples.titled_schema (Str "Survey") _
              eq_refl eq_refl eq_refl)
    as (first & rest & Hc & Hid & _).
  do 3 eexists. split; [reflexivity|]. split; [exact Hc|exact Hid].
Defined.

(** *** Object properties *)

(** The element built for the nested property [entry] of the object
    property [key]. *)
Local Abbreviation flat_child key :=
  (fun (entry : string * value) (kid : ElementType) =>
     id kid = (key ++ "_" ++ fst entry)%string /\
     (exists t, get (snd entry) "type" = Some t /\
                type kid = if is_str t "boolean" then "checkbox" else "text") /\
     children kid = None).

Local Abbreviation schemas_like l :=
  (forallb (fun kv : string * value => schema_like (snd kv)) l).

Lemma schema_like_object v :
  schema_like v = true -> exists members, v = Obj members.
Proof. destruct v; try discriminate. eexists; reflexivity. Qed.

Lemma requiredFlag_returns owner key :
  schema_like owner = true -> exists r, requiredFlag owner key = Some r.
Proof.
  destruct owner as [| | | | | |members]; try discriminate.
  unfold schema_like, requiredFlag, get. cbn [bind].
  destruct (lookup "required" members) as [[| | | | |items|]|];
    try discriminate; intros _; eexists; reflexivity.
Qed.

Lemma convertChild_returns key prop kids c childKey childProp :
  schema_like prop = true -> schema_like childProp = true ->
  exists kid c',
    convertChild key prop (kids, c) (childKey, childProp)
    = Some (kids ++ [kid], c') /\
    flat_child key (childKey, childProp) kid.
Proof.
  intros Hprop Hchild.
  destruct (@requiredFlag_returns prop childKey Hprop) as (r & Hr).
  destruct (@schema_like_object _ Hchild) as (members & ->).
  unfold convertChild. rewrite Hr. cbn [bind get].
  do 2 eexists. split; [reflexivity|]. cbn [id type children fst snd get].
  split; [reflexivity|]. split; [|reflexivity].
  eexists. split; reflexivity.
Qed.

Lemma children_loop_returns key prop :
  schema_like prop = true ->
  forall l kids c, schemas_like l = true ->
  exists more c',
    forEach (convertChild key prop) l (kids, c) = Some (kids ++ more, c') /\
    Forall2 (flat_child key) l more.
Proof.
  intros Hprop.
  induction l as [|[childKey childProp] l IH]; cbn [forEach forallb snd];
    intros kids c Hl.
  - exists [], c. rewrite app_nil_r. split; [reflexivity|constructor].
  - apply andb_prop in Hl as [Hchild Hl].
    destruct (@convertChild_returns key prop kids c childKey childProp
                Hprop Hchild)
      as (kid & c1 & -> & Hkid).
    cbn [bind].
    destruct (IH (kids ++ [kid]) c1 Hl) as (more & c2 & -> & Hmore).
    exists (kid :: more), c2. rewrite <- app_assoc.
    split; [reflexivity|]. constructor; assumption.
Qed.

(** The loop over [prop.properties], guarded by [if (prop.properties)],
    walks the entries [propertiesOf] names. *)
Lemma nested_loop members key c :
  (if truthy (match lookup "properties" members with
              | Some x => x
              | None => Undefined
              end)
   then forEach (convertChild key (Obj members))
          (entries (match lookup "properties" members with
                    | Some x => x
                    | None => Undefined
                    end)) ([], c)
   else Some ([], c))
  = forEach (convertChild key (Obj members)) (propertiesOf (Obj members))
      ([], c).
Proof.
  unfold propertiesOf, get.
  now destruct (truthy (match lookup "properties" members with
                        | Some x => x
                        | None => Undefined
                        end)).
Qed.

Lemma convertProperty_returns schema c key prop :
  schema_like schema = true -> schema_like prop = true ->
  schemas_like (propertiesOf prop) = true ->
  exists c' more,
    convertProperty schema c (key, prop) = Some c' /\
    convertedElements c' = convertedElements c ++ more /\
    (get prop "type" = Some (Str "object") ->
     exists section kids,
       more = [section] /\ id section = key /\ type section = "section" /\
       children section = Some kids /\
       Forall2 (flat_child key) (propertiesOf prop) kids).
Proof.
  intros Hschema Hprop Hnested.
  destruct (@requiredFlag_returns schema key Hschema) as (r & Hr).
  destruct (@schema_like_object _ Hprop) as (members & ->).
  destruct (@children_loop_returns key (Obj members) Hprop
              (propertiesOf (Obj members)) []
              (note_description key
                 (match lookup "description" members with
                  | Some x => x
                  | None => Undefined
                  end) c) Hnested)
    as (kids & c1 & Hloop & Hkids).
  pose proof (@children_loop_keeps _ _ _ _ _ Hloop) as Hkeep.
  cbn [snd app] in Hloop, Hkeep.
  unfold convertProperty. rewrite Hr. cbn [bind get].
  rewrite nested_loop, Hloop. cbn [bind fst snd].
  destruct (lookup "type" members) as [propType|] eqn:Htype.
  - destruct (is_str propType "string") eqn:Hstring.
    { do 2 eexists. split; [reflexivity|]. autorewrite with conv.
      split; [reflexivity|].
      intros Hobj. injection Hobj as ->. discriminate Hstring. }
    destruct (is_str propType "number" || is_str propType "integer")
      eqn:Hnumber.
    { do 2 eexists. split; [reflexivity|]. autorewrite with conv.
      split; [reflexivity|].
      intros Hobj. injection Hobj as ->. discriminate Hnumber. }
    destruct (is_str propType "boolean") eqn:Hboolean.
    { do 2 eexists. split; [reflexivity|]. autorewrite with conv.
      split; [reflexivity|].
      intros Hobj. injection Hobj as ->. discriminate Hboolean. }
    destruct (is_str propType "array") eqn:Harray.
    { assert (Hnot : Some propType <> Some (Str "object")).
      { intros Hobj. injection Hobj as ->. discriminate Harray. }
      destruct (truthy (match lookup "items" members with
                        | Some x => x
                        | None => Undefined
                        end)) eqn:Hitems.
      - destruct (get (match lookup "items" members with
                       | Some x => x
                       | None => Undefined
                       end) "enum") as [itemsEnum|] eqn:Henum.
        + cbn [bind]. destruct (truthy itemsEnum).
          * do 2 eexists. split; [reflexivity|]. autorewrite with conv.
            split; [reflexivity|]. intros Hobj. contradiction.
          * exists (note_description key
                      (match lookup "description" members with
                       | Some x => x
                       | None => Undefined
                       end) c), [].
            split; [reflexivity|]. autorewrite with conv.
            rewrite app_nil_r. split; [reflexivity|].
            intros Hobj. contradiction.
        + exfalso. destruct (match lookup "items" members with
                             | Some x => x
                             | None => Undefined
                             end); discriminate.
      - exists (note_description key
                  (match lookup "description" members with
                   | Some x => x
                   | None => Undefined
                   end) c), [].
        split; [reflexivity|]. autorewrite with conv.
        rewrite app_nil_r. split; [reflexivity|].
        intros Hobj. contradiction. }
    destruct (is_str propType "object") eqn:Hobject.
    + do 2 eexists. split; [reflexivity|]. autorewrite with conv.
      rewrite Hkeep. autorewrite with conv.
      split; [reflexivity|]. intros _.
      do 2 eexists. split; [reflexivity|].
      cbn [id type children]. repeat split. exact Hkids.
    + exists (note_description key
                (match lookup "description" members with
                 | Some x => x
                 | None => Undefined
                 end) c), [].
      split; [reflexivity|]. autorewrite with conv.
      rewrite app_nil_r. split; [reflexivity|].
      intros Hobj. injection Hobj as ->. discriminate Hobject.
  - exists (note_description key
              (match lookup "description" members with
               | Some x => x
               | None => Undefined
               end) c), [].
    split; [reflexivity|]. autorewrite with conv.
    rewrite app_nil_r. split; [reflexivity|]. intros Hobj. discriminate Hobj.
Qed.

Lemma properties_loop_returns schema :
  schema_like schema = true ->
  forall l c,
    forallb (fun kv : string * value =>
               schema_like (snd kv) && schemas_like (propertiesOf (snd kv)))
      l = true ->
    exists c',
      forEach (convertProperty schema) l c = Some c' /\
      forall key prop,
        In (key, prop) l -> get prop "type" = Some (Str "object") ->
        exists section kids,
          In section (convertedElements c') /\
          id section = key /\ type section = "section" /\
          children section = Some kids /\
          Forall2 (flat_child key) (propertiesOf prop) kids.
Proof.
  intros Hschema.
  induction l as [|[key0 prop0] l IH]; cbn [forEach forallb snd]; intros c Hl.
  - exists c. split; [reflexivity|]. intros key prop [].
  - apply andb_prop in Hl as [Hhead Hl].
    apply andb_prop in Hhead as [Hprop Hnested].
    destruct (@convertProperty_returns schema c key0 prop0 Hschema Hprop
                Hnested) as (c1 & more & Hstep & Hmore & Hobject).
    destruct (IH c1 Hl) as (c' & Hloop & Hrest).
    exists c'. rewrite Hstep. cbn [bind]. split; [exact Hloop|].
    intros key prop [Heq|Hin] Htype.
    + injection Heq as -> ->.
      destruct (Hobject Htype) as (section & kids & -> & Hsection).
      exists section, kids. split; [|exact Hsection].
      apply properties_loop_extends in Hloop as (later & ->).
      rewrite Hmore. apply in_or_app. left. apply in_or_app. right.
      now left.
    + now apply Hrest.
Qed.

(** C3, as the code has it.  On a schema whose property schemas, at the top
    and one level down, are objects with [required] absent or an array, the
    conversion returns, and every property of type "object" has a section
    element with the property key as id.  Its children come from the nested
    properties one for one and one level deep only: the child for the nested
    key [k] has the id [key_k], is a checkbox when the nested type is
    "boolean" and a text field otherwise, and has no children of its own. *)
Theorem object_property_becomes_flat_section schema :
  well_formed schema = true ->
  exists c,
    convertJsonSchemaToElements schema = Some c /\
    forall key prop,
      In (key, prop) (propertiesOf schema) ->
      get prop "type" = Some (Str "object") ->
      exists section kids,
        In section (convertedElements c) /\
        id section = key /\ type section = "section" /\
        children section = Some kids /\
        Forall2
          (fun (entry : string * value) (kid : ElementType) =>
             id kid = (key ++ "_" ++ fst entry)%string /\
             (exists t,
                get (snd entry) "type" = Some t /\
                type kid = if is_str t "boolean" then "checkbox" else "text") /\
             children kid = None)
          (propertiesOf prop) kids.
Proof.
  unfold well_formed. intros H. apply andb_prop in H as [Hschema Hprops].
  destruct (@schema_like_object _ Hschema) as (members & ->).
  unfold convertJsonSchemaToElements. cbn [bind get].
  set (c1 := if truthy (match lookup "title" members with
                        | Some x => x
                        | None => Undefined
                        end) then _ else _).
  destruct (@properties_loop_returns (Obj members) Hschema
              (propertiesOf (Obj members)) c1 Hprops) as (c & Hloop & Hall).
  exists c. split; [|exact Hall].
  revert Hloop. unfold propertiesOf, get.
  destruct (truthy (match lookup "properties" members with
                    | Some x => x
                    | None => Undefined
                    end)); [tauto|].
  cbn [forEach]. intros [= <-]. reflexivity.
Qed.

(** C3, at the sample nested schema. *)
Lemma object_property_becomes_flat_section_witness :
  exists c,
    convertJsonSchemaToElements Samples.nested_schema = Some c /\
    exists section kids,
      In section (convertedElements c) /\
      id section = "addr" /\ type section = "section" /\
      children section = Some kids /\ map id kids = ["addr_n"; "addr_inner"].
Proof.
  destruct (@object_property_becomes_flat_section Samples.nested_schema
              eq_refl) as (c & Hc & Hall).
  exists c. split; [exact Hc|].
  destruct (Hall "addr"
              (Obj [("type", Str "object");
                    ("properties",
                     Obj [("n", Obj [("type", Str "number")]);
                          ("inner",
                           Obj [("type", Str "object");
                                ("properties",
                                 Obj [("x", Obj [("type", Str "string")])])])])])
              (or_introl eq_refl) eq_refl)
    as (section & kids & Hin & Hid & Htype & Hkids & Hshape).
  exists section, kids. repeat (split; [assumption|]).
  cbn in Hshape.
  inversion Hshape as [|? kid1 ? rest1 (Hid1 & _) Hshape1]; subst.
  inversion Hshape1 as [|? kid2 ? rest2 (Hid2 & _) Hshape2]; subst.
  inversion Hshape2; subst. cbn [map]. cbn in Hid1, Hid2.
  now rewrite Hid1, Hid2.
Defined.

(** C3 as the specification words it fails on the sample nested schema: the
    section for "addr" has no child that keeps the nested key "n" as its id
    and is a number element. *)
Lemma nested_properties_are_not_dispatched :
  exists c,
    convertJsonSchemaToElements Samples.nested_schema = Some c /\
    ~ (exists section kids kid,
         In section (convertedElements c) /\ id section = "addr" /\
         children section = Some kids /\ In kid kids /\
         id kid = "n" /\ type kid = "number").
Proof.
  eexists. split; [reflexivity|].
  intros (section & kids & kid & Hin & _ & Hkids & Hkid & Hid & _).
  cbn in Hin. destruct Hin as [<-|[]]. cbn in Hkids.
  injection Hkids as <-.
  destruct Hkid as [<-|[<-|[]]]; discriminate Hid.
Qed.

End Reverse.

(** ** Removing and updating elements *)

Module TreeEdits.
Import FormBuilder.

Local Abbreviation kept wanted :=
  (fun x => match removeAt wanted x with Some y => [y] | None => [] end).

Lemma ids_of_node e c :
  children e = Some c -> map id (flatten e) = id e :: all_ids c.
Proof. destruct e; simpl; intros ->; reflexivity. Qed.

Lemma ids_of_leaf e :
  children e = None -> map id (flatten e) = [id e].
Proof. destruct e; simpl; intros ->; reflexivity. Qed.

Lemma all_ids_kept wanted (c : list ElementType) :
  all_ids (flat_map (kept wanted) c)
  = flat_map (fun x => all_ids (kept wanted x)) c.
Proof.
  induction c as [|x c IH]; simpl; [reflexivity|].
  rewrite TreeManager.all_ids_app, IH. reflexivity.
Qed.

Lemma all_ids_one (y : ElementType) : all_ids [y] = map id (flatten y).
Proof. unfold all_ids, all_elements. simpl. now rewrite app_nil_r. Qed.

(** What [removeAt] leaves of one element: no id it did not have, no id
    twice that was there once, and never the removed id. *)
Local Abbreviation cleaned wanted :=
  (fun z => forall y, removeAt wanted z = Some y ->
     incl (map id (flatten y)) (map id (flatten z)) /\
     (NoDup (map id (flatten z)) -> NoDup (map id (flatten y))) /\
     ~ In wanted%string (map id (flatten y))).

Lemma kept_ids wanted (c : list ElementType) :
  Forall (cleaned wanted) c ->
  incl (all_ids (flat_map (kept wanted) c)) (all_ids c) /\
  (NoDup (all_ids c) -> NoDup (all_ids (flat_map (kept wanted) c))) /\
  ~ In wanted (all_ids (flat_map (kept wanted) c)).
Proof.
  rewrite all_ids_kept.
  induction 1 as [|z c Hz _ IHc]; simpl.
  - split; [apply incl_refl|]. split; [tauto|]. tauto.
  - rewrite TreeManager.all_ids_cons.
    destruct IHc as (Hincl & Hnd & Hnot).
    destruct (removeAt wanted z) as [z'|] eqn:Hrem.
    + destruct (Hz z' eq_refl) as (Hzincl & Hznd & Hznot).
      rewrite all_ids_one. split; [|split].
      * apply incl_app_app; assumption.
      * intros Hall. apply NoDup_app.
        -- apply Hznd. now apply NoDup_app_remove_r in Hall.
        -- apply Hnd. now apply NoDup_app_remove_l in Hall.
        -- intros a Ha Hb.
           apply (NoDup_app_disjoint _ _ a Hall);
             [now apply Hzincl|now apply Hincl].
      * intros Hin. apply in_app_or in Hin as [Hin|Hin]; tauto.
    + change (all_ids []) with (@nil string). simpl.
      split; [|split].
      * now apply incl_appr.
      * intros Hall. apply Hnd. now apply NoDup_app_remove_l in Hall.
      * exact Hnot.
Qed.

Lemma removeAt_ids wanted e : cleaned wanted e.
Proof.
  induction e as [i t l d p r o m x|i t l d p r o m x c IH] using element_ind;
    simpl; intros y H; destruct (i =? wanted) eqn:Hid; try discriminate;
    apply String.eqb_neq in Hid; injection H as <-.
  - simpl. split; [apply incl_refl|]. split; [tauto|]. intros [?|[]].
    contradiction.
  - cbn [flatten children with_children map id].
    change (map id (flat_map flatten ?l)) with (all_ids l).
    destruct (@kept_ids wanted c IH) as (Hincl & Hnd & Hnot).
    split; [|split].
    + apply incl_cons; [now left|]. now apply incl_tl.
    + intros Hall. inversion_clear Hall as [|? ? Hfresh Hrest].
      constructor; [|now apply Hnd].
      intros Hin. apply Hfresh. now apply Hincl.
    + intros [Heq|Hin]; [now apply Hid|now apply Hnot].
Qed.

Lemma removeElement_clean elements wanted :
  ~ In wanted (all_ids (removeElement wanted elements)).
Proof.
  unfold removeElement.
  apply kept_ids. apply Forall_forall. intros z _. apply removeAt_ids.
Qed.

(** X1. Removing an id removes it everywhere: whatever the tree, no element
    of the result carries the removed id, at any depth. *)
Theorem remove_leaves_no_such_id elements wanted :
  ~ In wanted (all_ids (handleElementRemove elements wanted)).
Proof. apply removeElement_clean. Qed.



(** X3. Removing the same id a second time changes nothing. *)
Theorem remove_twice_is_remove_once elements wanted :
  handleElementRemove (handleElementRemove elements wanted) wanted
  = handleElementRemove elements wanted.
Proof.
  pose proof (removeElement_clean elements wanted) as Hgone.
  unfold handleElementRemove.
  set (once := removeElement wanted elements) in *.
  unfold removeElement at 1.
  apply flat_map_keeps.
  apply TreeManager.absent_everywhere in Hgone.
  revert Hgone. apply Forall_impl. intros e. apply TreeManager.removeAt_absent.
Qed.

(** *** Updates *)

Lemma updateAt_ids wanted updates e :
  u_id updates = None -> u_children updates = None ->
  map id (flatten (updateAt wanted updates e)) = map id (flatten e).
Proof.
  intros Hid Hch.
  induction e as [i t l d p r o m x|i t l d p r o m x c IH] using element_ind;
    simpl; destruct (i =? wanted); unfold spread; simpl;
    rewrite ?Hid, ?Hch; simpl; try reflexivity.
  f_equal. induction IH as [|z c Hz _ IHc]; simpl; [reflexivity|].
  now rewrite !map_app, Hz, IHc.
Qed.

(** X4. An update that carries neither an [id] nor [children] (none of the
    property controls sends either) leaves the ids of the tree as they were,
    each at its place in the visiting order: it edits fields only. *)
Theorem update_keeps_ids elements wanted updates :
  u_id updates = None -> u_children updates = None ->
  all_ids (handleElementUpdate elements wanted updates) = all_ids elements.
Proof.
  intros Hid Hch. unfold handleElementUpdate, all_ids, all_elements.
  induction elements as [|z c IHc]; simpl; [reflexivity|].
  now rewrite !map_app, updateAt_ids, IHc.
Qed.

(** X4, at the sample address form and a new label for the nested field. *)
Lemma update_keeps_ids_witness :
  all_ids (handleElementUpdate Samples.address_form "s_line1"
             (Controls.label_update "Street"))
  = all_ids Samples.address_form.
Proof. apply update_keeps_ids; reflexivity. Defined.

Lemma updateAt_self updates E :
  updateAt (id E) updates E = spread E updates.
Proof. destruct E; simpl. now rewrite String.eqb_refl. Qed.

Lemma updateAt_above wanted updates S c :
  id S <> wanted -> children S = Some c ->
  children (updateAt wanted updates S)
  = Some (map (updateAt wanted updates) c).
Proof.
  destruct S; simpl. intros Hid ->. apply String.eqb_neq in Hid.
  now rewrite Hid.
Qed.

Lemma update_placed p : forall elements i E updates,
  NoDup (all_ids elements) -> placed elements p i E ->
  placed (map (updateAt (id E) updates) elements) p i (spread E updates).
Proof.
  induction p as [|j p IH]; intros elements i E updates Hnd (arr & Harr & HE).
  - simpl in Harr. injection Harr as <-. eexists. split; [reflexivity|].
    rewrite nth_error_map, HE. simpl. now rewrite updateAt_self.
  - simpl in Harr.
    destruct (nth_error elements j) as [S|] eqn:HS; [|discriminate].
    destruct (children S) as [c|] eqn:Hc; [|discriminate].
    pose proof (TreeManager.placed_inside _ _ _ Harr HE) as Hin.
    destruct (nth_error_split _ _ HS) as (l1 & l2 & -> & Hlen).
    rewrite TreeManager.all_ids_split, (ids_of_node _ Hc) in Hnd.
    apply NoDup_app_remove_l in Hnd. simpl in Hnd.
    inversion_clear Hnd as [|? ? Hfresh Hrest].
    apply NoDup_app_remove_r in Hrest.
    assert (Hid : id S <> id E).
    { intros Heq. apply Hfresh. apply in_or_app. left. rewrite Heq.
      unfold all_ids. now apply in_map. }
    destruct (IH c i E updates Hrest) as (arr' & Harr' & HE').
    { exists arr. now split. }
    exists arr'. split; [|exact HE'].
    simpl. rewrite nth_error_map, HS. simpl.
    now rewrite (@updateAt_above (id E) updates S c Hid Hc).
Qed.

(** X5. In a tree with pairwise distinct ids, updating the element placed at
    some position puts the merged element [{...E, ...updates}] at that same
    position of the new tree, at any depth. *)
Theorem update_lands_in_place elements p i E updates :
  NoDup (all_ids elements) -> placed elements p i E ->
  placed (handleElementUpdate elements (id E) updates) p i (spread E updates).
Proof. intros Hnd HE. now apply update_placed. Qed.

(** X5, at the nested field of the sample address form. *)
Lemma update_lands_in_place_witness :
  placed (handleElementUpdate Samples.address_form "s_line1"
            (Controls.label_update "Street"))
    [1] 0 (Samples.field "s_line1" "text" "Street").
Proof.
  apply (@update_lands_in_place Samples.address_form [1] 0
           (Samples.field "s_line1" "text" "Line 1")
           (Controls.label_update "Street")).
  - simpl. repeat constructor; simpl; intuition discriminate.
  - eexists. split; reflexivity.
Defined.

End TreeEdits.

(** ** Drags *)

Module Drags.
Import FormBuilder.

(** *** Lookups *)

Lemma find_absent elements wanted :
  ~ In wanted (all_ids elements) ->
  findElementAndParent elements wanted = None.
Proof.
  intros H. apply TreeManager.absent_everywhere in H.
  unfold findElementAndParent. apply scan_from_none.
  revert H. apply Forall_impl. intros e He k.
  now apply TreeManager.findAt_absent.
Qed.

Lemma findAt_sound wanted e :
  forall elements p i f,
    findAt wanted elements p i e = Some f ->
    In (element f) (flatten e) /\ id (element f) = wanted.
Proof.
  induction e as [i t l d p r o m x|i t l d p r o m x c IH] using element_ind;
    simpl; intros els q j f H; destruct (i =? wanted) eqn:Hid;
    try discriminate;
    try (injection H as <-; apply String.eqb_eq in Hid; simpl; now auto).
  apply scan_from_some in H as (k & y & Hy & Hk).
  rewrite Forall_forall in IH. destruct (IH y Hy _ _ _ _ Hk) as (Hin & Hf).
  split; [|exact Hf]. right. apply in_flat_map. now exists y.
Qed.

Lemma find_sound elements wanted f :
  findElementAndParent elements wanted = Some f ->
  In (element f) (all_elements elements) /\ id (element f) = wanted.
Proof.
  unfold findElementAndParent. intros H.
  apply scan_from_some in H as (k & y & Hy & Hk).
  destruct (findAt_sound _ _ _ _ _ Hk) as (Hin & Hf).
  split; [|exact Hf]. apply in_flat_map. now exists y.
Qed.

Lemma findSectionAt_none overId e :
  findSectionAt overId e = None ->
  Forall (fun z => id z = overId -> type z <> "section") (flatten e).
Proof.
  induction e as [i t l d p r o m x|i t l d p r o m x c IH] using element_ind;
    simpl; intros H;
    destruct ((i =? overId) && (t =? "section")) eqn:Hhit; try discriminate;
    (constructor;
     [simpl; intros Hi Ht; apply String.eqb_eq in Hi, Ht;
      now rewrite Hi, Ht in Hhit|]); [constructor|].
  apply scan_from_none_each in H.
  apply Forall_forall. intros z Hz. apply in_flat_map in Hz as (y & Hy & Hz).
  rewrite Forall_forall in IH, H. destruct (H y Hy) as (_ & Hnone).
  specialize (IH y Hy Hnone). rewrite Forall_forall in IH. now apply IH.
Qed.

Lemma findSection_none elements overId s :
  findSection elements overId = None ->
  In s (all_elements elements) -> id s = overId -> type s <> "section".
Proof.
  unfold findSection. intros H Hs.
  apply scan_from_none_each in H.
  apply in_flat_map in Hs as (y & Hy & Hs).
  rewrite Forall_forall in H. destruct (H y Hy) as (_ & Hnone).
  apply findSectionAt_none in Hnone. rewrite Forall_forall in Hnone.
  now apply Hnone.
Qed.

Lemma findSection_of_section elements E :
  NoDup (all_ids elements) -> In E (all_elements elements) ->
  type E = "section" -> findSection elements (id E) = Some E.
Proof.
  intros Hnd HE Hty.
  destruct (findSection elements (id E)) as [s|] eqn:Hs.
  - apply TreeManager.findSection_sound in Hs as (Hin & Hid & _).
    f_equal. eapply NoDup_map_injective; eassumption.
  - exfalso. now apply (findSection_none _ _ Hs HE).
Qed.

(** *** Dropping a tool card *)

Lemma drop_appends elements active overId now :
  ~ In active (all_ids elements) ->
  findSection elements overId = None ->
  handleDragEnd elements active (Some overId) now
  = elements ++ [newElement active now].
Proof.
  intros Habsent Hnone. unfold handleDragEnd.
  rewrite Hnone, (find_absent _ _ Habsent).
  destruct (findElementAndParent elements overId) as [o|] eqn:Ho;
    [|reflexivity].
  destruct (type (element o) =? "section") eqn:Hty; [exfalso|reflexivity].
  apply String.eqb_eq in Hty.
  apply find_sound in Ho as (Hin & Hid).
  now apply (findSection_none _ _ Hnone Hin Hid).
Qed.

(** X6. A tool card (an id no element carries) dropped where the target id
    does not resolve to a section is appended to the root array as a new
    element: the branch that would put it into a section under the pointer
    can never be taken. *)
Theorem tool_drop_appends_to_root elements active overId now :
  ~ In active (all_ids elements) ->
  findSection elements overId = None ->
  handleDragEnd elements active (Some overId) now
  = elements ++ [newElement active now].
Proof. apply drop_appends. Qed.

(** X6, at the sample address form: a text tool dropped on the canvas. *)
Lemma tool_drop_appends_to_root_witness :
  handleDragEnd Samples.address_form "text" (Some "canvas") 1700000000000
  = Samples.address_form ++ [newElement "text" 1700000000000].
Proof.
  apply tool_drop_appends_to_root.
  - simpl. intuition discriminate.
  - reflexivity.
Defined.

(** X7. A tool card dropped on a section is not inserted anywhere: when the
    target id resolves to a section and the dragged id is not an element of
    the tree, the tree stays as it was. *)
Theorem tool_drop_on_section_is_ignored elements active overId s now :
  ~ In active (all_ids elements) ->
  findSection elements overId = Some s ->
  handleDragEnd elements active (Some overId) now = elements.
Proof.
  intros Habsent Hs. unfold handleDragEnd.
  now rewrite Hs, (find_absent _ _ Habsent).
Qed.

(** X7, at the sample address form: a text tool dropped on its section. *)
Lemma tool_drop_on_section_is_ignored_witness :
  handleDragEnd Samples.address_form "text" (Some "s") 1700000000000
  = Samples.address_form.
Proof.
  eapply tool_drop_on_section_is_ignored.
  - simpl. intuition discriminate.
  - reflexivity.
Defined.

(** *** Generated ids *)

Lemma newElement_ids active now :
  map id (flatten (newElement active now)) = [id (newElement active now)].
Proof. unfold newElement. simpl. now destruct (active =? "section"). Qed.

Lemma all_ids_with_new elements active now :
  all_ids (elements ++ [newElement active now])
  = all_ids elements ++ [id (newElement active now)].
Proof.
  rewrite TreeManager.all_ids_app, TreeEdits.all_ids_one.
  now rewrite newElement_ids.
Qed.

Lemma append_length (a b : string) :
  String.length (a ++ b) = String.length a + String.length b.
Proof. induction a as [|c a IH]; simpl; [reflexivity|now rewrite IH]. Qed.

Lemma generated_id_is_not_the_tool active now :
  id (newElement active now) <> active.
Proof.
  unfold newElement. simpl. intros H.
  apply (f_equal String.length) in H. rewrite append_length in H.
  simpl in H. lia.
Qed.

(** X8. A tool drop keeps the ids of the tree pairwise distinct as long as
    the generated id, the tool name followed by [-] and the clock reading, is
    not yet in the tree. *)
Theorem tool_drop_with_fresh_id_keeps_ids_distinct elements active overId now :
  NoDup (all_ids elements) ->
  ~ In active (all_ids elements) ->
  findSection elements overId = None ->
  ~ In (id (newElement active now)) (all_ids elements) ->
  NoDup (all_ids (handleDragEnd elements active (Some overId) now)).
Proof.
  intros Hnd Habsent Hnone Hfresh.
  rewrite drop_appends by assumption.
  rewrite all_ids_with_new. apply NoDup_app.
  - exact Hnd.
  - repeat constructor. intros [].
  - intros a Ha [<-|[]]. contradiction.
Qed.

(** X8, at the sample address form. *)
Lemma tool_drop_with_fresh_id_keeps_ids_distinct_witness :
  NoDup (all_ids (handleDragEnd Samples.address_form "text" (Some "canvas")
                    1700000000000)).
Proof.
  apply tool_drop_with_fresh_id_keeps_ids_distinct.
  - simpl. repeat constructor; simpl; intuition discriminate.
  - simpl. intuition discriminate.
  - reflexivity.
  - simpl. intuition discriminate.
Defined.

(** X9. The generated id does not look at the tree.  The same tool dropped
    twice while the clock reads the same gives two root elements with one
    id, so the ids of the tree are no longer pairwise distinct. *)
Theorem two_drops_at_one_instant_collide elements active overId now :
  ~ In active (all_ids elements) ->
  findSection elements overId = None ->
  overId <> id (newElement active now) ->
  handleDragEnd (handleDragEnd elements active (Some overId) now)
    active (Some overId) now
  = elements ++ [newElement active now; newElement active now] /\
  ~ NoDup (all_ids (handleDragEnd
                      (handleDragEnd elements active (Some overId) now)
                      active (Some overId) now)).
Proof.
  intros Habsent Hnone Hover.
  rewrite (@drop_appends elements active overId now Habsent Hnone).
  assert (Hagain : handleDragEnd (elements ++ [newElement active now]) active
                     (Some overId) now
                   = (elements ++ [newElement active now])
                     ++ [newElement active now]).
  { apply drop_appends.
    - rewrite all_ids_with_new. intros Hin.
      apply in_app_or in Hin as [Hin|[Hin|[]]]; [contradiction|].
      now apply generated_id_is_not_the_tool in Hin.
    - revert Hnone. unfold findSection. rewrite scan_from_app.
      intros ->.
      assert (Hneq : (id (newElement active now) =? overId) = false).
      { apply String.eqb_neq. intros Heq. apply Hover. now rewrite <- Heq. }
      simpl in *. rewrite Hneq. simpl. now destruct (active =? "section"). }
  rewrite Hagain, <- app_assoc. split; [reflexivity|].
  simpl. rewrite TreeManager.all_ids_app.
  rewrite TreeManager.all_ids_cons, TreeEdits.all_ids_one, !newElement_ids.
  intros Hnd. apply NoDup_app_remove_l in Hnd.
  inversion_clear Hnd as [|? ? Hin _]. apply Hin. now left.
Qed.

(** X9, at the sample address form. *)
Lemma two_drops_at_one_instant_collide_witness :
  ~ NoDup (all_ids (handleDragEnd
                      (handleDragEnd Samples.address_form "text"
                         (Some "canvas") 1700000000000)
                      "text" (Some "canvas") 1700000000000)).
Proof.
  apply (@two_drops_at_one_instant_collide Samples.address_form "text" "canvas"
           1700000000000).
  - simpl. intuition discriminate.
  - reflexivity.
  - discriminate.
Defined.

(** *** Dragging a placed element over an element that is not a section *)

Lemma arrayMove_permutation (A : Type) (l : list A) (from to : nat) :
  Permutation (arrayMove l from to) l.
Proof.
  unfold arrayMove. destruct (nth_error l from) as [x|] eqn:Hx; [|reflexivity].
  rewrite <- Permutation_middle, firstn_skipn.
  rewrite Permutation_middle. now rewrite (firstn_skipn_middle _ _ Hx).
Qed.

Lemma all_ids_permutation l l' :
  Permutation l l' -> Permutation (all_ids l) (all_ids l').
Proof.
  intros H. unfold all_ids, all_elements.
  apply Permutation_map. now apply Permutation_flat_map.
Qed.

Lemma reorderAt_ids activeParent activeIndex overIndex e :
  forall p i,
    Permutation
      (map id (flatten (reorderAt activeParent activeIndex overIndex p i e)))
      (map id (flatten e)).
Proof.
  induction e as [i t l d q r o m x|i t l d q r o m x c IH] using element_ind;
    simpl; intros p k; [reflexivity|].
  destruct (place_eqb (p ++ [k]) activeParent); simpl; constructor.
  - apply (all_ids_permutation (arrayMove_permutation c activeIndex overIndex)).
  - generalize 0. generalize (p ++ [k]). intros q' k0. revert k0.
    induction IH as [|z c Hz _ IHc]; simpl; intros k0; [reflexivity|].
    rewrite !map_app. apply Permutation_app; [apply Hz|apply IHc].
Qed.

Lemma updateElements_reorder_ids activeParent activeIndex overIndex elements :
  Permutation
    (all_ids (updateElements_reorder activeParent activeIndex overIndex elements))
    (all_ids elements).
Proof.
  unfold updateElements_reorder, all_ids, all_elements.
  generalize 0. generalize (@nil nat).
  induction elements as [|z c IHc]; simpl; intros q k0; [reflexivity|].
  rewrite !map_app. apply Permutation_app; [apply reorderAt_ids|apply IHc].
Qed.

(** X10. In a tree with pairwise distinct ids, dragging an element of the
    tree over an element that is not a section never loses, adds or
    duplicates an element, wherever the two sit: the ids of the result are
    the ids of the tree in some order, still pairwise distinct. *)
Theorem drag_over_field_keeps_the_ids elements E O now :
  NoDup (all_ids elements) ->
  In E (all_elements elements) -> In O (all_elements elements) ->
  type O <> "section" ->
  Permutation (all_ids (handleDragEnd elements (id E) (Some (id O)) now))
    (all_ids elements) /\
  NoDup (all_ids (handleDragEnd elements (id E) (Some (id O)) now)).
Proof.
  intros Hnd HE HO Hty.
  assert (Hperm : Permutation
                    (all_ids (handleDragEnd elements (id E) (Some (id O)) now))
                    (all_ids elements)).
  { unfold handleDragEnd.
    rewrite (@TreeManager.findSection_not_a_section elements O Hnd HO Hty).
    destruct (@TreeManager.findElementAndParent_finds elements E HE) as (a & ->).
    destruct (@TreeManager.findElementAndParent_finds elements O HO) as (o & ->).
    destruct (place_eqb (parentPlace a) (parentPlace o)); [|reflexivity].
    destruct (place_eqb (parentPlace a) []).
    - apply all_ids_permutation, arrayMove_permutation.
    - apply updateElements_reorder_ids. }
  split; [exact Hperm|].
  apply (Permutation_NoDup (Permutation_sym Hperm) Hnd).
Qed.

(** X10, at the sample address form: the section dragged over the root
    field. *)
Lemma drag_over_field_keeps_the_ids_witness :
  Permutation (all_ids (handleDragEnd Samples.address_form "s" (Some "a") 0))
    (all_ids Samples.address_form).
Proof.
  apply (@drag_over_field_keeps_the_ids Samples.address_form
           (Samples.section "s" "Address"
              [Samples.field "s_line1" "text" "Line 1"])
           (FormBuilder.mkElement "a" "text" "Name" None None (Some true)
              None None None None) 0%N).
  - simpl. repeat constructor; simpl; intuition discriminate.
  - simpl. auto.
  - simpl. auto.
  - discriminate.
Defined.

(** *** Reordering the root array *)

Lemma arrayMove_lands (A : Type) (l : list A) (from to : nat) (x : A) :
  nth_error l from = Some x -> to < List.length l ->
  nth_error (arrayMove l from to) to = Some x /\
  firstn to (arrayMove l from to) ++ skipn (S to) (arrayMove l from to)
  = firstn from l ++ skipn (S from) l.
Proof.
  intros Hx Hto. unfold arrayMove. rewrite Hx.
  set (w := firstn from l ++ skipn (S from) l).
  assert (Hw : to <= List.length w).
  { pose proof (firstn_skipn_middle _ _ Hx) as Hl.
    apply (f_equal (@List.length A)) in Hl.
    rewrite length_app in Hl. cbn [List.length] in Hl.
    unfold w. rewrite length_app. lia. }
  assert (Hlen : List.length (firstn to w) = to).
  { rewrite length_firstn. lia. }
  split.
  - rewrite nth_error_app2 by lia. now rewrite Hlen, Nat.sub_diag.
  - rewrite firstn_app, skipn_app, Hlen, Nat.sub_diag.
    replace (S to - to) with 1 by lia.
    rewrite (skipn_all2 (firstn to w)) by lia.
    rewrite firstn_firstn, Nat.min_id.
    change (firstn 0 (x :: skipn to w)) with (@nil A).
    change (skipn 1 (x :: skipn to w)) with (skipn to w).
    rewrite app_nil_r. apply firstn_skipn.
Qed.

(** X11. Array-move semantics at the root.  In a tree with pairwise distinct
    ids, dragging the root item at position [i] over the root item at
    position [j], which is not a section, gives a root array with the dragged
    item at position [j] and all other items in the order they had. *)
Theorem root_reorder_moves_to_target elements i j E O now :
  NoDup (all_ids elements) ->
  nth_error elements i = Some E -> nth_error elements j = Some O ->
  type O <> "section" ->
  handleDragEnd elements (id E) (Some (id O)) now = arrayMove elements i j /\
  nth_error (handleDragEnd elements (id E) (Some (id O)) now) j = Some E /\
  firstn j (handleDragEnd elements (id E) (Some (id O)) now)
  ++ skipn (S j) (handleDragEnd elements (id E) (Some (id O)) now)
  = firstn i elements ++ skipn (S i) elements.
Proof.
  intros Hnd HE HO Hty.
  assert (Hmove : handleDragEnd elements (id E) (Some (id O)) now
                  = arrayMove elements i j).
  { unfold handleDragEnd.
    rewrite (@TreeManager.findSection_not_a_section elements O Hnd
               (@TreeManager.placed_inside [] elements elements j O eq_refl HO)
               Hty).
    rewrite (@TreeManager.findElementAndParent_placed elements [] i E elements
               Hnd eq_refl HE).
    rewrite (@TreeManager.findElementAndParent_placed elements [] j O elements
               Hnd eq_refl HO).
    reflexivity. }
  rewrite Hmove. split; [reflexivity|].
  apply arrayMove_lands; [exact HE|].
  apply nth_error_Some. now rewrite HO.
Qed.

(** X11, at a root array of three fields, the first dragged over the last. *)
Lemma root_reorder_moves_to_target_witness :
  handleDragEnd [Samples.field "a" "text" "A"; Samples.field "b" "text" "B";
                 Samples.field "c" "text" "C"] "a" (Some "c") 0
  = [Samples.field "b" "text" "B"; Samples.field "c" "text" "C";
     Samples.field "a" "text" "A"].
Proof.
  destruct (@root_reorder_moves_to_target
              [Samples.field "a" "text" "A"; Samples.field "b" "text" "B";
               Samples.field "c" "text" "C"] 0 2
              (Samples.field "a" "text" "A") (Samples.field "c" "text" "C")
              0%N) as (Hmove & _).
  - simpl. repeat constructor; simpl; intuition discriminate.
  - reflexivity.
  - reflexivity.
  - discriminate.
  - exact Hmove.
Defined.

(** *** A root section dropped on itself *)

(** X12. In a tree with pairwise distinct ids, a section of the root array
    that is dropped on itself (the target id is its own id) is taken out of
    the root array and appended nowhere: the new tree is the old one without
    the section and its subtree. *)
Theorem root_section_dropped_on_itself_is_lost l1 E l2 now :
  NoDup (all_ids (l1 ++ E :: l2)) -> type E = "section" ->
  handleDragEnd (l1 ++ E :: l2) (id E) (Some (id E)) now = l1 ++ l2.
Proof.
  intros Hnd Hty.
  assert (Hplace : nth_error (l1 ++ E :: l2) (List.length l1) = Some E).
  { clear. induction l1; simpl; auto. }
  assert (Hin : In E (all_elements (l1 ++ E :: l2))).
  { apply (@TreeManager.placed_inside [] _ _ _ _ eq_refl Hplace). }
  unfold handleDragEnd.
  rewrite (findSection_of_section _ _ Hnd Hin Hty).
  rewrite (@TreeManager.findElementAndParent_placed _ [] _ E _ Hnd eq_refl
             Hplace).
  cbn [parentPlace parent element]. rewrite String.eqb_refl. simpl.
  destruct (TreeManager.root_ids_differ _ _ _ Hnd) as (_ & Hapart & Hroot).
  rewrite (TreeManager.filter_detaches _ _ _ Hroot).
  unfold updateElements_append. apply map_fixes.
  assert (Habsent : ~ In (id E) (all_ids (l1 ++ l2))).
  { intros Hid. apply (Hapart _ Hid). destruct E; simpl. now left. }
  apply TreeManager.absent_everywhere in Habsent.
  revert Habsent. apply Forall_impl. intros y. apply TreeManager.appendInto_absent.
Qed.

(** X12, at the sample address form and its section. *)
Lemma root_section_dropped_on_itself_is_lost_witness :
  handleDragEnd Samples.address_form "s" (Some "s") 0
  = [FormBuilder.mkElement "a" "text" "Name" None None (Some true)
       None None None None].
Proof.
  apply (@root_section_dropped_on_itself_is_lost
           [FormBuilder.mkElement "a" "text" "Name" None None (Some true)
              None None None None]
           (Samples.section "s" "Address"
              [Samples.field "s_line1" "text" "Line 1"]) [] 0%N).
  - simpl. repeat constructor; simpl; intuition discriminate.
  - reflexivity.
Defined.

(** *** A root element dropped into a section *)

Local Abbreviation ids_of e := (map id (flatten e)).

Lemma appended_ids_in_list sid moved c :
  Forall (fun y => forall S,
            NoDup (ids_of y) -> findSectionAt sid y = Some S ->
            Permutation (ids_of (appendInto sid moved y))
              (ids_of y ++ ids_of moved)) c ->
  forall S k,
    NoDup (all_ids c) ->
    scan_from (fun _ => findSectionAt sid) k c = Some S ->
    Permutation (all_ids (map (appendInto sid moved) c))
      (all_ids c ++ ids_of moved).
Proof.
  induction 1 as [|y c Hy _ IH]; simpl; intros S k Hnd Hscan; [discriminate|].
  rewrite !TreeManager.all_ids_cons. rewrite TreeManager.all_ids_cons in Hnd.
  destruct (findSectionAt sid y) as [S'|] eqn:Hfound.
  - pose proof (TreeManager.findSectionAt_sound _ _ Hfound) as (Hin & Hid & _).
    assert (Hrest : map (appendInto sid moved) c = c).
    { apply map_fixes. apply Forall_forall. intros z Hz.
      apply TreeManager.appendInto_absent.
      apply Forall_forall. intros x Hx Heq.
      apply (NoDup_app_disjoint _ _ sid Hnd).
      - rewrite <- Hid. now apply in_map.
      - rewrite <- Heq. unfold all_ids, all_elements. apply in_map.
        apply in_flat_map. now exists z. }
    rewrite Hrest.
    rewrite (Hy S' (NoDup_app_remove_r _ _ Hnd) eq_refl).
    rewrite <- !app_assoc. apply Permutation_app_head.
    apply Permutation_app_comm.
  - assert (Habsent : absent sid y).
    { apply scan_from_some in Hscan as (j & z & Hz & Hj).
      apply TreeManager.findSectionAt_sound in Hj as (Hin & Hid & _).
      apply Forall_forall. intros x Hx Heq.
      apply (NoDup_app_disjoint _ _ sid Hnd).
      - rewrite <- Heq. now apply in_map.
      - rewrite <- Hid. unfold all_ids, all_elements. apply in_map.
        apply in_flat_map. now exists z. }
    rewrite (TreeManager.appendInto_absent moved Habsent).
    rewrite <- app_assoc. apply Permutation_app_head.
    apply (IH S (Datatypes.S k)); [now apply NoDup_app_remove_l in Hnd|].
    exact Hscan.
Qed.

Lemma appended_ids sid moved e :
  forall S,
    NoDup (ids_of e) -> findSectionAt sid e = Some S ->
    Permutation (ids_of (appendInto sid moved e)) (ids_of e ++ ids_of moved).
Proof.
  induction e as [i t l d p r o m x|i t l d p r o m x c IH] using element_ind;
    simpl; intros S Hnd H.
  - destruct ((i =? sid) && (t =? "section")) eqn:Hhit; [|discriminate].
    apply andb_prop in Hhit as [Hi _]. rewrite Hi. simpl.
    now rewrite app_nil_r.
  - destruct ((i =? sid) && (t =? "section")) eqn:Hhit.
    + apply andb_prop in Hhit as [Hi _]. rewrite Hi. simpl.
      rewrite flat_map_app, map_app. simpl. now rewrite app_nil_r.
    + inversion_clear Hnd as [|? ? Hfresh Hrest].
      destruct (i =? sid) eqn:Hi.
      * exfalso. apply String.eqb_eq in Hi. subst i. apply Hfresh.
        apply scan_from_some in H as (j & z & Hz & Hj).
        apply TreeManager.findSectionAt_sound in Hj as (Hin & Hid & _).
        rewrite <- Hid. apply in_map. apply in_flat_map. now exists z.
      * simpl. constructor.
        apply (@appended_ids_in_list sid moved c IH S 0 Hrest H).
Qed.

(** X13. A root element dragged into a section is moved, not copied.  In a
    tree with pairwise distinct ids, let [E] be an item of the root array and
    let the target id resolve to a section [S] of the rest of the tree.
    After the drag no root item carries the id of [E], the section found
    under the target id has the children of [S] followed by [E], and the ids
    of the tree are the same as before, each still occurring once. *)
Theorem root_element_moves_into_section l1 E l2 S sid now :
  NoDup (all_ids (l1 ++ E :: l2)) ->
  findSection (l1 ++ l2) sid = Some S ->
  Forall (fun x => id x <> id E)
    (handleDragEnd (l1 ++ E :: l2) (id E) (Some sid) now) /\
  (exists S',
     findSection (handleDragEnd (l1 ++ E :: l2) (id E) (Some sid) now) sid
     = Some S' /\
     children S'
     = Some (match children S with Some c => c | None => [] end ++ [E])) /\
  Permutation (all_ids (handleDragEnd (l1 ++ E :: l2) (id E) (Some sid) now))
    (all_ids (l1 ++ E :: l2)) /\
  NoDup (all_ids (handleDragEnd (l1 ++ E :: l2) (id E) (Some sid) now)).
Proof.
  intros Hnd HS.
  destruct (@TreeManager.root_drag_into_section_reparents l1 E l2 S sid now
              Hnd HS) as (-> & Hroot & Hfound).
  assert (Hperm : Permutation
                    (all_ids (updateElements_append sid E (l1 ++ l2)))
                    (all_ids (l1 ++ E :: l2))).
  { destruct (TreeManager.root_ids_differ _ _ _ Hnd) as (Hrest & _ & _).
    unfold updateElements_append.
    rewrite (@appended_ids_in_list sid E (l1 ++ l2)
               ltac:(apply Forall_forall; intros y _ S'; apply appended_ids)
               S 0 Hrest HS).
    rewrite TreeManager.all_ids_split, TreeManager.all_ids_app.
    rewrite <- app_assoc. apply Permutation_app_head.
    apply Permutation_app_comm. }
  split; [exact Hroot|]. split; [|split; [exact Hperm|]].
  - eexists. split; [exact Hfound|]. reflexivity.
  - apply (Permutation_NoDup (Permutation_sym Hperm) Hnd).
Qed.

(** X13, at the two sample sections: the first dragged into the second. *)
Lemma root_element_moves_into_section_witness :
  exists S',
    findSection (handleDragEnd Samples.two_sections "p" (Some "s") 0) "s"
    = Some S' /\
    children S'
    = Some [Samples.section "p" "Parent" [Samples.field "e" "text" "Moved"]].
Proof.
  destruct (@root_element_moves_into_section []
              (Samples.section "p" "Parent" [Samples.field "e" "text" "Moved"])
              [Samples.section "s" "Target" []]
              (Samples.section "s" "Target" []) "s" 0%N)
    as (_ & Hfound & _).
  - simpl. repeat constructor; simpl; intuition discriminate.
  - reflexivity.
  - exact Hfound.
Defined.

End Drags.

(** ** Edits made on the controls of an element *)

Module OptionEdits.
Import FormBuilder.
Import FormElement.
Import Controls.

Lemma filteri_drops_position index : forall (l : list string) k,
  k <= index ->
  filteri_from (fun i _ => negb (i =? index)%nat) k l
  = firstn (index - k) l ++ skipn (S (index - k)) l.
Proof.
  induction l as [|x l IH]; simpl; intros k Hk.
  - now rewrite firstn_nil.
  - destruct (k =? index)%nat eqn:Hki; simpl.
    + apply Nat.eqb_eq in Hki. subst k. rewrite Nat.sub_diag. simpl.
      apply Options.filteri_past. lia.
    + apply Nat.eqb_neq in Hki. rewrite IH by lia.
      replace (index - k) with (S (index - S k)) by lia. reflexivity.
Qed.

(** X14. On a list of more than two options, [removeOption(index)] takes out
    the entry at [index] and nothing else; with an [index] past the end the
    list that is written back is the list that was there. *)
Theorem removeOption_drops_that_entry element opts index :
  options element = Some opts -> 2 < List.length opts ->
  options (after element (removeOption element index))
  = Some (firstn index opts ++ skipn (S index) opts) /\
  (List.length opts <= index ->
   options (after element (removeOption element index)) = Some opts).
Proof.
  intros Hopts Hlen. unfold removeOption. rewrite Hopts.
  replace (List.length opts <=? 2)%nat with false
    by (symmetry; apply Nat.leb_gt; exact Hlen).
  cbn [after spread options pick u_options options_update].
  rewrite filteri_drops_position by lia. rewrite Nat.sub_0_r.
  split; [reflexivity|]. intros Hpast.
  rewrite firstn_all2 by lia. rewrite skipn_all2 by lia.
  now rewrite app_nil_r.
Qed.

(** X14, at a select element with three options. *)
Lemma removeOption_drops_that_entry_witness :
  options (after (Samples.select ["A"; "B"; "C"] (Some 4%Z))
             (removeOption (Samples.select ["A"; "B"; "C"] (Some 4%Z)) 1))
  = Some ["A"; "C"].
Proof.
  destruct (@removeOption_drops_that_entry
              (Samples.select ["A"; "B"; "C"] (Some 4%Z)) ["A"; "B"; "C"] 1
              eq_refl) as (Hdrop & _).
  - simpl. lia.
  - exact Hdrop.
Defined.

(** X15. Adding an option and then removing the last row gives back the
    options the element had: on a list of at least two options, whenever
    [addOption] writes a list, [removeOption] at the new last position
    restores the old one. *)
Theorem add_then_remove_last_restores element opts :
  options element = Some opts -> 2 <= List.length opts ->
  addOption element <> None ->
  options
    (after (after element (addOption element))
       (removeOption (after element (addOption element)) (List.length opts)))
  = Some opts.
Proof.
  intros Hopts Hlen Hadd. unfold addOption in *. rewrite Hopts in *.
  destruct (match maxOptions element with
            | Some m => negb (m =? 0)%Z && (m <=? Z.of_nat (List.length opts))%Z
            | None => false
            end); [contradiction|].
  remember ("Option " ++ decimal_of_nat (List.length opts + 1))%string as x.
  assert (Hlong : (List.length (opts ++ [x]) <=? 2)%nat = false).
  { apply Nat.leb_gt. rewrite length_app. simpl. lia. }
  unfold removeOption.
  cbn [after spread options pick u_options options_update].
  rewrite Hlong.
  cbn [after spread options pick u_options options_update].
  rewrite filteri_drops_position by lia. rewrite Nat.sub_0_r.
  rewrite firstn_app, Nat.sub_diag, firstn_all, firstn_O, app_nil_r.
  rewrite skipn_all2; [now rewrite app_nil_r|].
  rewrite length_app. simpl. lia.
Qed.

(** X15, at a select element with two options and a cap of four. *)
Lemma add_then_remove_last_restores_witness :
  options
    (after (after (Samples.select ["A"; "B"] (Some 4%Z))
              (addOption (Samples.select ["A"; "B"] (Some 4%Z))))
       (removeOption
          (after (Samples.select ["A"; "B"] (Some 4%Z))
             (addOption (Samples.select ["A"; "B"] (Some 4%Z)))) 2))
  = Some ["A"; "B"].
Proof.
  apply (@add_then_remove_last_restores
           (Samples.select ["A"; "B"] (Some 4%Z)) ["A"; "B"]).
  - reflexivity.
  - simpl. lia.
  - discriminate.
Defined.

(** X16. The buttons and the handlers agree.  On an element that has an
    options list, the add button is rendered exactly when [addOption] would
    write a list, and the remove buttons are rendered exactly when
    [removeOption] would. *)
Theorem buttons_match_handlers element opts :
  options element = Some opts ->
  (showsAdd element = true <-> addOption element <> None) /\
  (showsRemove element = true <->
   forall index, removeOption element index <> None).
Proof.
  intros Hopts. unfold showsAdd, showsRemove, addOption, removeOption.
  rewrite Hopts. split.
  - destruct (maxOptions element) as [m|]; [|split; [discriminate|reflexivity]].
    destruct (m =? 0)%Z; simpl; [split; [discriminate|reflexivity]|].
    destruct (Z.ltb_spec (Z.of_nat (List.length opts)) m) as [Hlt|Hge].
    + replace (m <=? Z.of_nat (List.length opts))%Z with false
        by (symmetry; apply Z.leb_gt; exact Hlt).
      split; [discriminate|reflexivity].
    + replace (m <=? Z.of_nat (List.length opts))%Z with true
        by (symmetry; apply Z.leb_le; exact Hge).
      split; [discriminate|]. intros H. now contradiction H.
  - destruct (Nat.ltb_spec 2 (List.length opts)) as [Hlt|Hge].
    + replace (List.length opts <=? 2)%nat with false
        by (symmetry; apply Nat.leb_gt; exact Hlt).
      split; [discriminate|reflexivity].
    + replace (List.length opts <=? 2)%nat with true
        by (symmetry; apply Nat.leb_le; exact Hge).
      split; [discriminate|]. intros H. now contradiction (H 0).
Qed.

(** X16, at a select element below its cap. *)
Lemma buttons_match_handlers_witness :
  addOption (Samples.select ["A"; "B"] (Some 4%Z)) <> None.
Proof.
  apply (proj1 (proj1 (@buttons_match_handlers
                         (Samples.select ["A"; "B"] (Some 4%Z)) ["A"; "B"]
                         eq_refl))).
  reflexivity.
Defined.

(** *** What every sequence of edits keeps *)

Lemma assign_length (l : list string) index value :
  index < List.length l -> List.length (assign l index value) = List.length l.
Proof.
  intros H. unfold assign. rewrite length_app. cbn [List.length].
  rewrite length_firstn, length_skipn. lia.
Qed.

(** The part of the data model a select element is created with. *)
Local Abbreviation sound_select e :=
  (type e = "select" /\
   (exists opts, options e = Some opts /\ 2 <= List.length opts) /\
   (exists m, maxOptions e = Some m /\ (2 <= m)%Z)).

Lemma edit_keeps_select element ev :
  sound_select element -> offered element ev = true ->
  sound_select (after element (fire element ev)) /\
  id (after element (fire element ev)) = id element /\
  children (after element (fire element ev)) = children element.
Proof.
  intros (Hty & (opts & Hopts & Hlen) & (m & Hmax & Hm)) Hoff.
  destruct ev as [v|v|v|v|index v| |index| |parsed];
    cbn [fire handleLabelChange handleDescriptionChange
           handlePlaceholderChange handleRequiredChange toggleMultipleChoice
           after spread pick label_update description_update
           placeholder_update required_update multiple_update
           u_id u_type u_label u_description u_placeholder u_required
           u_options u_isMultipleChoice u_maxOptions u_children
           id type options maxOptions children];
    try (repeat split; eauto; fail).
  - unfold handleOptionChange. rewrite Hopts.
    cbn [after spread pick options_update u_id u_type u_options u_maxOptions
           u_children id type options maxOptions children].
    repeat split; eauto.
    exists (assign opts index v). split; [reflexivity|].
    rewrite assign_length; [exact Hlen|].
    cbn [offered] in Hoff. apply andb_prop in Hoff as [_ Hrow].
    unfold option_rows in Hrow. rewrite Hopts in Hrow.
    now apply Nat.ltb_lt in Hrow.
  - unfold addOption. rewrite Hopts.
    destruct (match maxOptions element with
              | Some m0 =>
                  negb (m0 =? 0)%Z && (m0 <=? Z.of_nat (List.length opts))%Z
              | None => false
              end);
      cbn [after spread pick options_update u_id u_type u_options
             u_maxOptions u_children id type options maxOptions children];
      repeat split; eauto.
    eexists. split; [reflexivity|]. rewrite length_app. simpl. lia.
  - unfold removeOption. rewrite Hopts.
    destruct (List.length opts <=? 2)%nat eqn:Hle;
      cbn [after spread pick options_update u_id u_type u_options
             u_maxOptions u_children id type options maxOptions children];
      repeat split; eauto.
    apply Nat.leb_gt in Hle. eexists. split; [reflexivity|].
    pose proof (Options.filteri_drops_at_most_one index opts 0). lia.
  - unfold handleMaxOptionsChange. destruct parsed as [v|];
      [|repeat split; eauto].
    destruct (v <? 2)%Z eqn:Hv; [repeat split; eauto|].
    cbn [after spread pick maxOptions_update u_id u_type u_options
           u_maxOptions u_children id type options maxOptions children].
    apply Z.ltb_ge in Hv. repeat split; eauto.
Qed.

(** X17. A select element dropped from the toolbox keeps, under every
    sequence of edits its controls offer, its type, its id, at least two
    options and a [maxOptions] of at least two. *)
Theorem select_edits_keep_the_minimums now element :
  reachable (newElement "select" now) element ->
  type element = "select" /\ id element = id (newElement "select" now) /\
  (exists opts, options element = Some opts /\ 2 <= List.length opts) /\
  (exists m, maxOptions element = Some m /\ (2 <= m)%Z).
Proof.
  induction 1 as [|element ev _ IH Hoff].
  - repeat split; try reflexivity.
    + exists ["Option 1"; "Option 2"]. split; [reflexivity|]. simpl. lia.
    + exists 4%Z. split; [reflexivity|]. lia.
  - destruct IH as (Hty & Hid & Hopts & Hmax).
    destruct (@edit_keeps_select element ev (conj Hty (conj Hopts Hmax)) Hoff)
      as ((Hty' & Hopts' & Hmax') & Hid' & _).
    repeat split; try assumption. now rewrite Hid'.
Qed.

(** X17, after one added option and a renamed first option. *)
Lemma select_edits_keep_the_minimums_witness :
  exists opts,
    options
      (after (after (newElement "select" 0) (addOption (newElement "select" 0)))
         (handleOptionChange
            (after (newElement "select" 0) (addOption (newElement "select" 0)))
            0 "Red"))
    = Some opts /\ 2 <= List.length opts.
Proof.
  destruct (@select_edits_keep_the_minimums 0%N
              (after (after (newElement "select" 0)
                        (addOption (newElement "select" 0)))
                 (handleOptionChange
                    (after (newElement "select" 0)
                       (addOption (newElement "select" 0)))
                    0 "Red")))
    as (_ & _ & Hopts & _).
  - apply (@reached_step (newElement "select" 0)
             (after (newElement "select" 0) (addOption (newElement "select" 0)))
             (OptionChange 0 "Red")); [|reflexivity].
    apply (@reached_step (newElement "select" 0) (newElement "select" 0)
             AddOption); [|reflexivity].
    apply reached_start.
  - exact Hopts.
Defined.

(** X18. The cap is not kept.  Lowering [maxOptions] leaves the options as
    they are, so a select element can come to hold more options than its
    [maxOptions]: two added options and then a cap of two give four options
    under a cap of two. *)
Theorem edits_can_exceed_the_cap now :
  exists element opts m,
    reachable (newElement "select" now) element /\
    options element = Some opts /\ maxOptions element = Some m /\
    (m < Z.of_nat (List.length opts))%Z.
Proof.
  set (e0 := newElement "select" now).
  set (e1 := after e0 (fire e0 AddOption)).
  set (e2 := after e1 (fire e1 AddOption)).
  set (e3 := after e2 (fire e2 (MaxOptionsChange (Some 2%Z)))).
  exists e3, ["Option 1"; "Option 2"; "Option 3"; "Option 4"], 2%Z.
  split; [|repeat split].
  - apply reached_step; [|reflexivity].
    apply reached_step; [|reflexivity].
    apply reached_step; [|reflexivity].
    apply reached_start.
Qed.

End OptionEdits.

(** ** The generated schema *)

Module ForwardShape.
Import FormBuilder.
Import Js.
Import SchemaConverter.
Import SchemaShape.

(** *** Members of an object under [set] *)

Lemma set_keys k v (members : list (string * value)) :
  map fst (set k v members)
  = if existsb (String.eqb k) (map fst members)
    then map fst members
    else map fst members ++ [k].
Proof.
  induction members as [|[k' v'] rest IH]; simpl; [reflexivity|].
  rewrite (String.eqb_sym k k').
  destruct (k' =? k) eqn:Hk; simpl.
  - apply String.eqb_eq in Hk. now subst.
  - rewrite IH. now destruct (existsb (String.eqb k) (map fst rest)).
Qed.

Lemma existsb_eqb_in k (keys : list string) :
  existsb (String.eqb k) keys = true <-> In k keys.
Proof.
  rewrite existsb_exists. split.
  - intros (x & Hx & Heq). apply String.eqb_eq in Heq. now subst.
  - intros H. exists k. split; [exact H|apply String.eqb_refl].
Qed.

Lemma set_fresh k v (members : list (string * value)) :
  ~ In k (map fst members) -> set k v members = members ++ [(k, v)].
Proof.
  induction members as [|[k' v'] rest IH]; simpl; intros H; [reflexivity|].
  destruct (k' =? k) eqn:Hk.
  - apply String.eqb_eq in Hk. tauto.
  - rewrite IH; tauto.
Qed.

Lemma lookup_set_same k v (members : list (string * value)) :
  lookup k (set k v members) = Some v.
Proof.
  induction members as [|[k' v'] rest IH]; simpl.
  - now rewrite String.eqb_refl.
  - destruct (k' =? k) eqn:Hk; simpl.
    + now rewrite String.eqb_refl.
    + now rewrite Hk.
Qed.

Lemma lookup_set_other k k' v (members : list (string * value)) :
  k' <> k -> lookup k' (set k v members) = lookup k' members.
Proof.
  intros Hne. induction members as [|[k0 v0] rest IH]; simpl.
  - replace (k =? k') with false; [reflexivity|].
    symmetry. apply String.eqb_neq. congruence.
  - destruct (k0 =? k) eqn:Hk; simpl.
    + apply String.eqb_eq in Hk. subst k0.
      replace (k =? k') with false; [reflexivity|].
      symmetry. apply String.eqb_neq. congruence.
    + destruct (k0 =? k'); [reflexivity|exact IH].
Qed.

Lemma set_members k v (members : list (string * value)) k' v' :
  In (k', v') (set k v members) -> (k', v') = (k, v) \/ In (k', v') members.
Proof.
  induction members as [|[k0 v0] rest IH]; simpl.
  - intros [H|[]]. now left.
  - destruct (k0 =? k); simpl; intros [H|H]; auto.
    destruct (IH H); auto.
Qed.

(** *** The walk over the elements *)

Section Walked.
Variable entry : ElementType -> value.

Lemma visited_required elements : forall acc,
  snd (fold_left (visit entry) elements acc)
  = snd acc ++ map id (filter (fun e => flagged (required e)) elements).
Proof.
  induction elements as [|e elements IH]; simpl; intros acc.
  - now rewrite app_nil_r.
  - rewrite IH. simpl. destruct (flagged (required e)); simpl.
    + now rewrite <- app_assoc.
    + reflexivity.
Qed.

Lemma visited_properties elements : forall acc,
  NoDup (map id elements) ->
  (forall e, In e elements -> ~ In (id e) (map fst (fst acc))) ->
  fst (fold_left (visit entry) elements acc)
  = fst acc ++ map (fun e => (id e, entry e)) elements.
Proof.
  induction elements as [|e elements IH]; simpl; intros acc Hnd Hfresh.
  - now rewrite app_nil_r.
  - inversion_clear Hnd as [|? ? He Hrest].
    rewrite IH; simpl.
    + rewrite set_fresh by (apply Hfresh; now left).
      now rewrite <- app_assoc.
    + exact Hrest.
    + intros e' He'. rewrite set_fresh by (apply Hfresh; now left).
      rewrite map_app, in_app_iff. simpl. intros [Hin|[Heq|[]]].
      * apply (Hfresh e'); [now right|exact Hin].
      * apply He. rewrite Heq. now apply in_map.
Qed.

Lemma visited_keys elements : forall acc,
  NoDup (map fst (fst acc)) ->
  NoDup (map fst (fst (fold_left (visit entry) elements acc))) /\
  (forall k, In k (map fst (fst (fold_left (visit entry) elements acc)))
             <-> In k (map fst (fst acc)) \/ In k (map id elements)).
Proof.
  induction elements as [|e elements IH]; simpl; intros acc Hnd.
  - split; [exact Hnd|]. intros k. tauto.
  - destruct (IH (visit entry acc e)) as (Hnd' & Hkeys).
    + simpl. rewrite set_keys.
      destruct (existsb (String.eqb (id e)) (map fst (fst acc))) eqn:Hin;
        [exact Hnd|].
      apply NoDup_app; [exact Hnd|repeat constructor; intros []|].
      intros a Ha [<-|[]].
      apply existsb_eqb_in in Ha. congruence.
    + split; [exact Hnd'|]. intros k. rewrite Hkeys. simpl.
      rewrite set_keys.
      destruct (existsb (String.eqb (id e)) (map fst (fst acc))) eqn:Hin.
      * apply existsb_eqb_in in Hin. split; [tauto|].
        intros [H|[<-|H]]; auto.
      * rewrite in_app_iff. simpl. tauto.
Qed.

Lemma visited_values elements : forall acc k v,
  In (k, v) (fst (fold_left (visit entry) elements acc)) ->
  In (k, v) (fst acc) \/ exists e, In e elements /\ v = entry e.
Proof.
  induction elements as [|e elements IH]; simpl; intros acc k v H; [now left|].
  destruct (IH _ _ _ H) as [Hin|(e' & He' & Hv)].
  - simpl in Hin. apply set_members in Hin as [Heq|Hin]; [|now left].
    injection Heq as _ ->. right. exists e. auto.
  - right. exists e'. auto.
Qed.

Lemma visited_last l1 e l2 : forall acc,
  ~ In (id e) (map id l2) ->
  lookup (id e) (fst (fold_left (visit entry) (l1 ++ e :: l2) acc))
  = Some (entry e).
Proof.
  intros acc Hlast. rewrite fold_left_app. simpl.
  generalize (fold_left (visit entry) l1 acc). intros acc1.
  assert (Hstart : lookup (id e) (fst (visit entry acc1 e)) = Some (entry e))
    by apply lookup_set_same.
  revert Hstart. generalize (visit entry acc1 e). clear acc acc1.
  induction l2 as [|x l2 IH]; simpl; intros acc Hacc; [exact Hacc|].
  apply IH.
  - intros Hin. apply Hlast. now right.
  - simpl. rewrite lookup_set_other; [exact Hacc|].
    intros Heq. apply Hlast. left. now rewrite Heq.
Qed.

End Walked.

Lemma walk_properties elements :
  NoDup (map id elements) ->
  properties (walk entryOf elements)
  = map (fun e => (id e, entryOf e)) elements.
Proof.
  intros Hnd. unfold walk.
  destruct elements as [|e elements]; [reflexivity|].
  cbn [properties]. rewrite visited_properties; [reflexivity|exact Hnd|].
  intros e' _ [].
Qed.

Lemma walk_keys elements :
  NoDup (map fst (properties (walk entryOf elements))) /\
  (forall k, In k (map fst (properties (walk entryOf elements)))
             <-> In k (map id elements)).
Proof.
  unfold walk. destruct elements as [|e0 elements].
  - split; [constructor|]. intros k; simpl; tauto.
  - cbn [properties].
    destruct (@visited_keys entryOf (e0 :: elements) ([], []))
      as (Hnd & Hkeys); [constructor|].
    split; [exact Hnd|]. intros k. rewrite Hkeys. simpl. tauto.
Qed.

Lemma walk_required elements :
  required_ids (walk entryOf elements)
  = match map id (filter (fun e => flagged (required e)) elements) with
    | [] => None
    | ids => Some ids
    end.
Proof.
  unfold walk. destruct elements as [|e0 elements]; [reflexivity|].
  cbn [required_ids]. rewrite visited_required. cbn [snd app].
  now destruct (map id (filter _ (e0 :: elements))).
Qed.

Lemma walk_required_keys elements ids k :
  required_ids (walk entryOf elements) = Some ids -> In k ids ->
  In k (map fst (properties (walk entryOf elements))).
Proof.
  intros Hids Hk. rewrite walk_required in Hids.
  apply (proj2 (walk_keys elements)).
  assert (Hin : In k (map id (filter (fun e => flagged (required e)) elements))).
  { destruct (map id (filter _ elements)); [discriminate|].
    now injection Hids as <-. }
  apply in_map_iff in Hin as (e & <- & He). apply filter_In in He as [He _].
  now apply in_map.
Qed.







(** *** Shape *)

Local Abbreviation all_well_shaped ps :=
  (forallb (fun kv' : string * value => let (_, y) := kv' in well_shaped y) ps).

Lemma lookup_none_key k (members : list (string * value)) k' v :
  lookup k members = None -> In (k', v) members -> (k' =? k) = false.
Proof.
  induction members as [|[k0 v0] rest IH]; simpl; [intros _ []|].
  intros Hnone [Hin|Hin]; destruct (k0 =? k) eqn:Hk; try discriminate.
  - now injection Hin as <- _.
  - now apply IH.
Qed.

Lemma flat_is_well_shaped members :
  typed members = true -> lookup "properties" members = None ->
  lookup "required" members = None -> well_shaped (Obj members) = true.
Proof.
  intros Hty Hprops Hreq. cbn [well_shaped]. rewrite Hty.
  unfold closed_required. rewrite Hreq. cbn [andb].
  apply forallb_forall. intros [k x] Hin.
  now rewrite (@lookup_none_key "properties" members k x Hprops Hin).
Qed.

Lemma fieldSchema_is_flat e :
  exists members,
    fieldSchema e = Obj members /\ typed members = true /\
    lookup "properties" members = None /\ lookup "required" members = None.
Proof.
  unfold fieldSchema, with_examples.
  repeat match goal with
         | |- context [if ?b then _ else _] => destruct b
         | |- context [match maxOptions e with _ => _ end] =>
             destruct (maxOptions e)
         end;
    eexists; repeat split; reflexivity.
Qed.

Lemma names_are_keys (names keys : list string) :
  Forall (fun k => In k keys) names ->
  forallb (fun n => match n with
                    | Str k => existsb (String.eqb k) keys
                    | _ => false
                    end) (map Str names) = true.
Proof.
  induction 1 as [|k names Hk _ IH]; simpl; [reflexivity|].
  rewrite IH, andb_true_r. now apply existsb_eqb_in.
Qed.

Lemma section_is_well_shaped title description ps names :
  all_well_shaped ps = true ->
  Forall (fun k => In k (map fst ps)) names ->
  well_shaped
    (Obj ([("type", Str "object"); ("title", title);
           ("description", description); ("properties", Obj ps)]
          ++ match names with
             | x :: r => [("required", Arr (map Str (x :: r)))]
             | [] => []
             end)) = true.
Proof.
  intros Hps Hnames. destruct names as [|x r].
  - cbn -[well_shaped forallb]. cbn [well_shaped].
    cbn [forallb fst snd String.eqb Ascii.eqb Bool.eqb andb typed lookup
           closed_required json_type orb app].
    now rewrite Hps.
  - cbn [app well_shaped].
    cbn [forallb fst snd String.eqb Ascii.eqb Bool.eqb andb typed lookup
           closed_required json_type orb keys_of].
    rewrite Hps. cbn [andb].
    change (forallb ?f (Str x :: map Str r)) with (forallb f (map Str (x :: r))).
    now rewrite names_are_keys.
Qed.

Lemma walked_values_well_shaped c :
  Forall (fun e => well_shaped (entryOf e) = true) c ->
  all_well_shaped (properties (walk entryOf c)) = true.
Proof.
  intros IH. apply forallb_forall. intros [k v] Hin.
  unfold walk in Hin. destruct c as [|e0 c]; [contradiction|].
  cbn [properties] in Hin. apply visited_values in Hin as [[]|(e & He & ->)].
  rewrite Forall_forall in IH. now apply IH.
Qed.

Lemma walked_required_names c :
  Forall (fun k => In k (map fst (properties (walk entryOf c))))
    (match required_ids (walk entryOf c) with Some ids => ids | None => [] end).
Proof.
  destruct (required_ids (walk entryOf c)) as [ids|] eqn:Hids; [|constructor].
  apply Forall_forall. intros k Hk. eapply walk_required_keys; eassumption.
Qed.

Lemma entryOf_is_well_shaped e : well_shaped (entryOf e) = true.
Proof.
  induction e as [i t l d p r o m x|i t l d p r o m x c IH] using element_ind.
  - destruct (fieldSchema_is_flat (mkElement i t l d p r o m x None))
      as (members & Hms & Hty & Hprops & Hreq).
    cbn [entryOf type children]. destruct (t =? "section");
      rewrite Hms; now apply flat_is_well_shaped.
  - cbn [entryOf type children label description].
    destruct (t =? "section").
    + pose proof (walked_required_names c) as Hnames.
      destruct (required_ids (walk entryOf c)) as [[|y ids]|].
      * apply (@section_is_well_shaped _ _ _ []);
          [now apply walked_values_well_shaped|constructor].
      * apply (@section_is_well_shaped _ _ _ (y :: ids));
          [now apply walked_values_well_shaped|exact Hnames].
      * apply (@section_is_well_shaped _ _ _ []);
          [now apply walked_values_well_shaped|constructor].
    + destruct (fieldSchema_is_flat (mkElement i t l d p r o m x (Some c)))
        as (members & Hms & Hty & Hprops & Hreq).
      rewrite Hms. now apply flat_is_well_shaped.
Qed.


End ForwardShape.

(** ** From a tree to a schema and back *)

Module RoundTrip.
Import Js.
Import SchemaConverter.

(** The type an element has after the two conversions: a section with
    children stays a section; email, number, checkbox and select elements
    keep their type; everything else, titles included, is a text field. *)
Local Abbreviation comes_back_as e :=
  (match (FormBuilder.type e =? "section"), FormBuilder.children e with
   | true, Some _ => "section"
   | _, _ =>
       if FormBuilder.type e =? "text" then "text"
       else if FormBuilder.type e =? "email" then "email"
       else if FormBuilder.type e =? "number" then "number"
       else if FormBuilder.type e =? "checkbox" then "checkbox"
       else if FormBuilder.type e =? "select" then "select"
       else "text"
   end).

(** What the reverse conversion gives for the entry of a field. *)
Lemma field_comes_back schema c e rq :
  FormPreview.requiredFlag schema (FormBuilder.id e) = Some rq ->
  exists c' b,
    FormPreview.convertProperty schema c (FormBuilder.id e, fieldSchema e)
    = Some c' /\
    FormPreview.convertedElements c' = FormPreview.convertedElements c ++ [b] /\
    FormPreview.id b = FormBuilder.id e /\
    FormPreview.type b
    = (if FormBuilder.type e =? "text" then "text"
       else if FormBuilder.type e =? "email" then "email"
       else if FormBuilder.type e =? "number" then "number"
       else if FormBuilder.type e =? "checkbox" then "checkbox"
       else if FormBuilder.type e =? "select" then "select"
       else "text") /\
    FormPreview.label b
    = or_else (Str (FormBuilder.label e)) (Str (FormBuilder.id e)) /\
    FormPreview.required b = rq /\
    FormPreview.children b = None /\
    (FormPreview.type b = "select" ->
     FormPreview.options b = options_or_empty e /\
     FormPreview.isMultipleChoice b
     = Some (flagged (FormBuilder.isMultipleChoice e))) /\
    (FormPreview.type b <> "select" -> FormPreview.type b <> "checkbox" ->
     FormPreview.placeholder b = Str "").
Proof.
  intros Hr. unfold FormPreview.convertProperty. rewrite Hr.
  unfold fieldSchema, with_examples.
  repeat match goal with
         | |- context [if ?b then _ else _] => destruct b
         | |- context [match FormBuilder.maxOptions e with _ => _ end] =>
             destruct (FormBuilder.maxOptions e)
         end;
    cbn; do 2 eexists; (split; [reflexivity|]);
    rewrite ?Reverse.elements_set_label, ?Reverse.elements_push,
      ?Reverse.elements_note;
    (split; [reflexivity|]); cbn;
    repeat split; try reflexivity; try discriminate; try congruence.
Qed.

Lemma entryOf_schema_like e : FormPreview.schema_like (entryOf e) = true.
Proof.
  destruct e as [i t l d p r o m x [c|]]; cbn [entryOf FormBuilder.type
    FormBuilder.children FormBuilder.label FormBuilder.description];
    destruct (t =? "section");
    try (match goal with
         | |- FormPreview.schema_like (fieldSchema ?e) = true =>
             destruct (ForwardShape.fieldSchema_is_flat e)
               as (members & -> & _ & _ & Hreq);
             unfold FormPreview.schema_like; now rewrite Hreq
         end).
  now destruct (required_ids (walk entryOf c)) as [[|y ids]|].
Qed.

Lemma section_comes_back schema c i t l d p r o m x ch :
  FormPreview.schema_like schema = true -> (t =? "section") = true ->
  exists c' b,
    FormPreview.convertProperty schema c
      (i, entryOf (FormBuilder.mkElement i t l d p r o m x (Some ch)))
    = Some c' /\
    FormPreview.convertedElements c' = FormPreview.convertedElements c ++ [b] /\
    FormPreview.id b = i /\ FormPreview.type b = "section".
Proof.
  intros Hschema Ht.
  set (e := FormBuilder.mkElement i t l d p r o m x (Some ch)).
  destruct (@Reverse.convertProperty_returns schema c i (entryOf e) Hschema
              (entryOf_schema_like e))
    as (c' & more & Hc' & Hmore & Hsection).
  - unfold e. cbn [entryOf FormBuilder.type FormBuilder.children].
    rewrite Ht. unfold FormPreview.propertiesOf. cbn.
    apply forallb_forall. intros [k v] Hin. cbn [snd].
    unfold walk in Hin. destruct ch as [|e0 ch]; [contradiction|].
    cbn [properties] in Hin.
    apply ForwardShape.visited_values in Hin as [[]|(e' & _ & ->)].
    apply entryOf_schema_like.
  - destruct Hsection as (b & kids & -> & Hid & Hty & _).
    + unfold e. cbn [entryOf FormBuilder.type FormBuilder.children].
      now rewrite Ht.
    + exists c', b. auto.
Qed.

(** How an element and what comes back for it are related. *)
Local Abbreviation came_back :=
  (fun (e : FormBuilder.ElementType) (b : FormPreview.ElementType) =>
     FormPreview.id b = FormBuilder.id e /\
     FormPreview.type b = comes_back_as e /\
     (FormPreview.type b <> "section" ->
      FormPreview.label b
      = or_else (Str (FormBuilder.label e)) (Str (FormBuilder.id e)) /\
      truthy (FormPreview.required b) = flagged (FormBuilder.required e) /\
      FormPreview.children b = None /\
      (FormPreview.type b = "select" ->
       FormPreview.options b = options_or_empty e /\
       FormPreview.isMultipleChoice b
       = Some (flagged (FormBuilder.isMultipleChoice e))) /\
      (FormPreview.type b <> "select" -> FormPreview.type b <> "checkbox" ->
       FormPreview.placeholder b = Str ""))).

Lemma element_comes_back schema c e rq :
  FormPreview.schema_like schema = true ->
  FormPreview.requiredFlag schema (FormBuilder.id e) = Some rq ->
  truthy rq = flagged (FormBuilder.required e) ->
  exists c' b,
    FormPreview.convertProperty schema c (FormBuilder.id e, entryOf e) = Some c' /\
    FormPreview.convertedElements c' = FormPreview.convertedElements c ++ [b] /\
    came_back e b.
Proof.
  intros Hschema Hr Hrq.
  destruct e as [i t l d p r o m x [ch|]].
  - destruct (t =? "section") eqn:Ht.
    + destruct (@section_comes_back schema c i t l d p r o m x ch Hschema Ht)
        as (c' & b & Hc' & Hmore & Hid & Hty).
      exists c', b. split; [exact Hc'|]. split; [exact Hmore|].
      cbn [FormBuilder.id FormBuilder.type FormBuilder.children].
      rewrite Ht. split; [exact Hid|]. split; [exact Hty|].
      intros Hnot. contradiction.
    + destruct (@field_comes_back schema c
                  (FormBuilder.mkElement i t l d p r o m x (Some ch)) rq Hr)
        as (c' & b & Hc' & Hmore & Hid & Hty & Hlabel & Hreq & Hkids & Hsel & Hph).
      exists c', b. cbn [entryOf FormBuilder.type FormBuilder.children] in *.
      rewrite Ht. split; [exact Hc'|]. split; [exact Hmore|].
      split; [exact Hid|]. split; [exact Hty|]. intros _.
      rewrite Hreq. auto.
  - destruct (@field_comes_back schema c
                (FormBuilder.mkElement i t l d p r o m x None) rq Hr)
      as (c' & b & Hc' & Hmore & Hid & Hty & Hlabel & Hreq & Hkids & Hsel & Hph).
    exists c', b. cbn [entryOf FormBuilder.type FormBuilder.children] in *.
    assert (Hentry : (if t =? "section"
                      then fieldSchema
                             (FormBuilder.mkElement i t l d p r o m x None)
                      else fieldSchema
                             (FormBuilder.mkElement i t l d p r o m x None))
                     = fieldSchema (FormBuilder.mkElement i t l d p r o m x None))
      by now destruct (t =? "section").
    rewrite Hentry. split; [exact Hc'|]. split; [exact Hmore|].
    split; [exact Hid|]. split.
    + rewrite Hty. now destruct (t =? "section").
    + intros _. rewrite Hreq. auto.
Qed.

Lemma elements_come_back schema :
  FormPreview.schema_like schema = true ->
  forall l c,
    (forall e, In e l ->
       exists rq, FormPreview.requiredFlag schema (FormBuilder.id e) = Some rq /\
                  truthy rq = flagged (FormBuilder.required e)) ->
    exists c' more,
      FormPreview.forEach (FormPreview.convertProperty schema)
        (map (fun e => (FormBuilder.id e, entryOf e)) l) c = Some c' /\
      FormPreview.convertedElements c' = FormPreview.convertedElements c ++ more /\
      Forall2 came_back l more.
Proof.
  intros Hschema. induction l as [|e l IH]; cbn [map FormPreview.forEach];
    intros c Hflags.
  - exists c, []. rewrite app_nil_r. repeat split. constructor.
  - destruct (Hflags e (or_introl eq_refl)) as (rq & Hr & Hrq).
    destruct (@element_comes_back schema c e rq Hschema Hr Hrq)
      as (c1 & b & -> & Hb & Hback).
    cbn [FormPreview.bind].
    destruct (IH c1) as (c' & more & Hc' & Hmore & Hall).
    { intros e' He'. apply Hflags. now right. }
    exists c', (b :: more). split; [exact Hc'|]. split.
    + rewrite Hmore, Hb. now rewrite <- app_assoc.
    + constructor; assumption.
Qed.

Lemma includes_names (names : list string) key :
  existsb (fun x => is_str x key) (map Str names) = true <-> In key names.
Proof.
  rewrite existsb_exists. split.
  - intros (x & Hx & Heq). apply in_map_iff in Hx as (n & <- & Hn).
    simpl in Heq. apply String.eqb_eq in Heq. now subst.
  - intros H. exists (Str key). split; [now apply in_map|].
    simpl. apply String.eqb_refl.
Qed.

Lemma flags_come_back elements e :
  NoDup (map FormBuilder.id elements) -> In e elements ->
  exists rq,
    FormPreview.requiredFlag (to_value (elementsToJsonSchema elements))
      (FormBuilder.id e) = Some rq /\
    truthy rq = flagged (FormBuilder.required e).
Proof.
  intros Hnd He. unfold FormPreview.requiredFlag, to_value, elementsToJsonSchema.
  cbn [FormPreview.bind get lookup String.eqb Ascii.eqb Bool.eqb].
  rewrite ForwardShape.walk_required.
  set (names := map FormBuilder.id
                  (filter (fun x => flagged (FormBuilder.required x)) elements)).
  assert (Hnames : In (FormBuilder.id e) names
                   <-> flagged (FormBuilder.required e) = true).
  { unfold names. split.
    - intros Hin. apply in_map_iff in Hin as (e' & Hid & He').
      apply filter_In in He' as [He' Hflag].
      now rewrite <- (NoDup_map_injective _ _ _ _ Hnd He' He Hid).
    - intros Hflag. apply in_map. apply filter_In. now split. }
  clearbody names. destruct names as [|n rest].
  - exists Undefined. split; [reflexivity|].
    destruct (flagged (FormBuilder.required e)); [|reflexivity].
    now destruct (proj2 Hnames eq_refl).
  - eexists. split; [reflexivity|]. cbn [truthy].
    destruct (flagged (FormBuilder.required e)) eqn:Hflag.
    + apply includes_names. now apply Hnames.
    + destruct (existsb _ (map Str (n :: rest))) eqn:Hin; [|reflexivity].
      apply includes_names in Hin. apply Hnames in Hin. discriminate.
Qed.



End RoundTrip.

(** ** Which properties the reverse conversion keeps *)

Module ReverseShape.
Import Js.
Import FormPreview.

(** Whether the property schema [prop] gets an element: its [type] is
    string, number, integer, boolean or object, or it is array and
    [items.enum] is there. *)
Local Abbreviation has_items_enum prop :=
  (match get prop "items" with
   | Some items =>
       truthy items &&
       match get items "enum" with
       | Some choices => truthy choices
       | None => false
       end
   | None => false
   end).

Local Abbreviation converted prop :=
  (match get prop "type" with
   | Some t =>
       is_str t "string" ||
       ((is_str t "number" || is_str t "integer") ||
        (is_str t "boolean" ||
         (if is_str t "array" then has_items_enum prop else is_str t "object")))
   | None => false
   end).

Lemma is_str_true v s : is_str v s = true -> v = Str s.
Proof.
  destruct v; try discriminate. simpl. intros H.
  apply String.eqb_eq in H. now subst.
Qed.

Ltac known :=
  repeat match goal with
         | H : is_str ?v _ = true |- _ =>
             apply is_str_true in H; subst v
         | H : (is_str ?v _ || is_str ?v _) = true |- _ =>
             apply orb_prop in H; destruct H
         end.

Lemma convertProperty_id schema c key prop c' :
  convertProperty schema c (key, prop) = Some c' ->
  map id (convertedElements c')
  = map id (convertedElements c) ++ (if converted prop then [key] else []).
Proof.
  unfold convertProperty. intros H.
  repeat Reverse.returned;
    rewrite ?Reverse.elements_set_label, ?Reverse.elements_push,
      ?Reverse.elements_note;
    repeat match goal with
           | L : forEach _ _ _ = Some _ |- _ =>
               apply Reverse.children_loop_keeps in L; cbn [snd] in L;
               rewrite L, ?Reverse.elements_note
           end;
    known;
    repeat match goal with
           | E : get _ _ = Some _ |- _ => rewrite E
           | E : truthy _ = _ |- _ => rewrite E
           | E : is_str _ _ = false |- _ => rewrite E
           | E : (_ || _) = false |- _ => rewrite E
           end;
    cbn; rewrite ?map_app, ?app_nil_r, ?Reverse.elements_note;
    try reflexivity;
    repeat match goal with
           | |- context [if ?b then _ else _] => destruct b
           end;
    reflexivity.
Qed.

Lemma properties_loop_ids schema : forall l c c',
  forEach (convertProperty schema) l c = Some c' ->
  map id (convertedElements c')
  = map id (convertedElements c)
    ++ map fst (filter (fun kv : string * value => converted (snd kv)) l).
Proof.
  induction l as [|[key prop] l IH]; cbn [forEach filter snd]; intros c c' H.
  - injection H as <-. now rewrite app_nil_r.
  - Reverse.returned. rewrite (IH _ _ H).
    rewrite (convertProperty_id _ _ _ _ E).
    rewrite <- app_assoc. f_equal.
    now destruct (converted prop).
Qed.

(** X24. Whenever the reverse conversion returns, the ids of its elements
    are the fixed id "title" (when the schema has a title) followed by the
    keys of the properties it can represent, in their order: the properties
    of type string, number, integer, boolean or object, and those of type
    array that have [items.enum].  Every other property, an array without an
    enum included, is left out without a trace. *)
Theorem reverse_keeps_the_representable schema title c :
  get schema "title" = Some title ->
  convertJsonSchemaToElements schema = Some c ->
  map id (convertedElements c)
  = (if truthy title then ["title"] else [])
    ++ map fst (filter (fun kv : string * value =>
                          match get (snd kv) "type" with
                          | Some t =>
                              is_str t "string" ||
                              ((is_str t "number" || is_str t "integer") ||
                               (is_str t "boolean" ||
                                (if is_str t "array"
                                 then
                                   match get (snd kv) "items" with
                                   | Some items =>
                                       truthy items &&
                                       match get items "enum" with
                                       | Some choices => truthy choices
                                       | None => false
                                       end
                                   | None => false
                                   end
                                 else is_str t "object")))
                          | None => false
                          end)
                  (propertiesOf schema)).
Proof.
  intros Htitle H. unfold convertJsonSchemaToElements in H.
  rewrite Htitle in H. cbn [bind] in H.
  unfold propertiesOf.
  destruct (get schema "description") as [d|]; [|discriminate].
  cbn [bind] in H.
  destruct (get schema "properties") as [props|]; [|discriminate].
  cbn [bind] in H.
  destruct (truthy props).
  - rewrite (properties_loop_ids _ _ _ H). f_equal.
    destruct (truthy title); [|reflexivity].
    now rewrite Reverse.elements_note.
  - injection H as <-. rewrite app_nil_r.
    destruct (truthy title); [|reflexivity].
    now rewrite Reverse.elements_note.
Qed.

(** X24, at a schema with a string, an array without an enum, an array with
    one and a property of type null. *)
Lemma reverse_keeps_the_representable_witness :
  exists c,
    convertJsonSchemaToElements
      (Obj [("properties",
             Obj [("name", Obj [("type", Str "string")]);
                  ("tags", Obj [("type", Str "array");
                                ("items", Obj [("type", Str "string")])]);
                  ("colors",
                   Obj [("type", Str "array");
                        ("items", Obj [("enum", Arr [Str "Red"])])]);
                  ("nothing", Obj [("type", Str "null")])])]) = Some c /\
    map id (convertedElements c) = ["name"; "colors"].
Proof.
  set (schema := Obj _).
  destruct (convertJsonSchemaToElements schema) as [c|] eqn:Hc;
    [|discriminate Hc].
  exists c. split; [reflexivity|].
  rewrite (@reverse_keeps_the_representable schema Undefined c eq_refl Hc).
  reflexivity.
Defined.

End ReverseShape.

(** ** The state of the preview form *)

Module PreviewState.
Import Js.
Import FormPreview.
Import PreviewForm.

(** *** Defaults *)

(** The value the form starts with under a key: the [default] of the
    property schema, when it has one. *)
Local Abbreviation declared_default l key :=
  (match lookup key l with
   | Some prop =>
       match get prop "default" with
       | Some d => if is_undefined d then None else Some d
       | None => None
       end
   | None => None
   end).

Lemma seeded l : forall acc data key,
  NoDup (map fst l) ->
  forEach seedDefault l acc = Some data ->
  lookup key data
  = match declared_default l key with
    | Some d => Some d
    | None => lookup key acc
    end.
Proof.
  induction l as [|[k prop] l IH]; cbn [forEach map fst lookup];
    intros acc data key Hnd H.
  - now injection H as <-.
  - inversion_clear Hnd as [|? ? Hk Hrest].
    unfold seedDefault at 1 in H.
    destruct (get prop "default") as [d|] eqn:Hd; [|discriminate].
    cbn [bind] in H. rewrite (IH _ _ key Hrest H).
    destruct (k =? key) eqn:Hkey.
    + apply String.eqb_eq in Hkey. subst key.
      assert (Hnot : lookup k l = None).
      { destruct (lookup k l) as [x|] eqn:Hx; [|reflexivity].
        exfalso. apply Hk. apply Forward.lookup_in in Hx.
        now apply (in_map fst) in Hx. }
      rewrite Hnot, Hd.
      destruct (is_undefined d); [reflexivity|].
      apply ForwardShape.lookup_set_same.
    + destruct (declared_default l key); [reflexivity|].
      destruct (is_undefined d); [reflexivity|].
      apply ForwardShape.lookup_set_other.
      apply String.eqb_neq. now rewrite String.eqb_sym.
Qed.



(** *** The checkboxes of a multiple-choice select *)

Lemma stored_after_change formData id v :
  stored (handleChange formData id v) id = v.
Proof.
  unfold stored, handleChange. now rewrite ForwardShape.lookup_set_same.
Qed.

Lemma stored_elsewhere formData id v other :
  other <> id -> stored (handleChange formData id v) other = stored formData other.
Proof.
  intros H. unfold stored, handleChange.
  now rewrite ForwardShape.lookup_set_other.
Qed.

Lemma existsb_snoc (items : list value) choice other :
  existsb (fun x => is_str x other) (items ++ [Str choice])
  = existsb (fun x => is_str x other) items || (choice =? other).
Proof. rewrite existsb_app. simpl. now rewrite orb_false_r. Qed.

Lemma existsb_without (items : list value) choice other :
  existsb (fun x => is_str x other)
    (filter (fun x => negb (is_str x choice)) items)
  = if choice =? other then false
    else existsb (fun x => is_str x other) items.
Proof.
  induction items as [|x items IH]; simpl.
  - now destruct (choice =? other).
  - destruct (is_str x choice) eqn:Hx; simpl; rewrite IH.
    + apply ReverseShape.is_str_true in Hx. subst x. simpl.
      rewrite (String.eqb_sym choice other).
      destruct (other =? choice); reflexivity.
    + destruct (choice =? other) eqn:Hc; [|reflexivity].
      apply String.eqb_eq in Hc. subst other. now rewrite Hx.
Qed.



End PreviewState.
